(** * Birthdays report handler: shallow embedding and verification

    Source: [src/application/handlers/get_birthdays_handler.py].

    The handler answers [GET /imports/<import_id>/citizens/birthdays]: under two
    named leases it serves a cached report if the [birthdays] collection has
    one, and otherwise reads the citizens of the import, counts presents per
    month and relative, normalises the result to twelve month keys, stores it
    and returns it.

    Python values are modelled as follows.
    - [int] is [Z] (unbounded, as in Python).
    - [str] is [string]; [str(i)] on an [int] is decimal printing.
    - a [dict] is an association list in insertion order with at most one
      entry per key; [d[k] = v] overwrites in place or appends.
    - a [defaultdict] is a [dict] whose lookup of a missing key stores the
      default under that key first.
    - the MongoDB collections and the lock table are fields of a [world]
      record threaded through a state-and-error monad; the monad also keeps a
      log of the operations performed on the store, used to state what was
      (not) executed. *)

From Stdlib Require Import ZArith List String Ascii Bool Lia Permutation.
From Stdlib Require Import DecimalString DecimalZ DecimalPos.
Import ListNotations.
Local Open Scope string_scope.
Local Open Scope list_scope.
Local Open Scope Z_scope.

(** ** Python built-ins *)

Module Py.

(** [str(i)] for an [int]. *)
Definition str (i : Z) : string := NilZero.string_of_int (Z.to_int i).

(** [range(a, b)]. *)
Definition range (a b : Z) : list Z :=
  map (fun k => a + Z.of_nat k) (seq 0 (Z.to_nat (b - a))).

Section Dict.
Context {K V : Type} (eqb : K -> K -> bool).

(** [d.get(k)]: the value of the entry with key [k], if any. *)
Fixpoint dict_get (k : K) (d : list (K * V)) : option V :=
  match d with
  | [] => None
  | (k', v') :: t => if eqb k k' then Some v' else dict_get k t
  end.

(** [d[k] = v]: an existing key keeps its position, a new one goes last. *)
Fixpoint dict_set (k : K) (v : V) (d : list (K * V)) : list (K * V) :=
  match d with
  | [] => [(k, v)]
  | (k', v') :: t =>
      if eqb k k' then (k', v) :: t else (k', v') :: dict_set k v t
  end.

(** [d[k]] on a [defaultdict(lambda: default)]: a missing key is first
    stored with the default ([__missing__]).  Returns the value and the
    dictionary as it is after the access. *)
Definition defaultdict_getitem (default : V) (k : K) (d : list (K * V))
  : V * list (K * V) :=
  match dict_get k d with
  | Some v => (v, d)
  | None => (default, dict_set k default d)
  end.

(** Iterating a dict yields its keys; [d.items()] its entries. *)
Definition keys (d : list (K * V)) : list K := map fst d.
Definition items (d : list (K * V)) : list (K * V) := d.
End Dict.

End Py.

Import Py.

(** ** Data model *)

(** [datetime]: only the calendar fields.  The class guarantees
    [1 <= month <= 12]; the record carries that guarantee. *)
Record datetime : Type := mk_datetime {
  year : Z;
  month : Z;
  day : Z;
  month_range : ((1 <=? month) && (month <=? 12))%bool = true
}.

(** A citizen document of an import, with the fields the handler reads. *)
Record citizen : Type := mk_citizen {
  c_citizen_id : Z;
  birth_date : datetime;
  relatives : list Z
}.

(** One element of a month's list: [{'citizen_id': key, 'presents': value}]. *)
Record present_entry : Type := mk_entry {
  citizen_id : Z;
  presents : Z
}.

(** Inner counter [defaultdict(int)]: relative id -> number of presents. *)
Definition counter := list (Z * Z).
(** [defaultdict(lambda: defaultdict(int))]: month -> counter. *)
Definition birthdays_dict := list (Z * counter).
(** The [months] dict of the representation: month name -> entries. *)
Definition months_dict := list (string * list present_entry).

(** The response body [{'data': months}]. *)
Record representation : Type := mk_repr { data : months_dict }.

(** ** The aggregation (pure part of the handler) *)

(** [birthdays_data[month][relative_id] += 1] on the nested defaultdicts. *)
Definition increment (m : Z) (relative_id : Z) (birthdays_data : birthdays_dict)
  : birthdays_dict :=
  let '(inner, birthdays_data) :=
    @defaultdict_getitem Z counter Z.eqb [] m birthdays_data in
  let '(n, inner) := defaultdict_getitem Z.eqb 0 relative_id inner in
  let inner := dict_set Z.eqb relative_id (n + 1) inner in
  (* [inner] is the object stored under [m]: the update is seen there *)
  dict_set Z.eqb m inner birthdays_data.

Definition _get_birthdays_data (citizens : list citizen) : birthdays_dict :=
  fold_left
    (fun birthdays_data c =>
       fold_left
         (fun birthdays_data relative_id =>
            increment (month (birth_date c)) relative_id birthdays_data)
         (relatives c) birthdays_data)
    citizens [].

Definition entries_of (inner : counter) : list present_entry :=
  map (fun '(key, value) => mk_entry key value) (items inner).

Definition _get_birthdays_representation (birthdays_data : birthdays_dict)
  : representation :=
  let months := map (fun i => (str i, @nil present_entry)) (range 1 13) in
  let months :=
    fold_left
      (fun months m =>
         dict_set String.eqb (str m)
           (entries_of
              (fst (@defaultdict_getitem Z counter Z.eqb [] m birthdays_data)))
           months)
      (keys birthdays_data) months in
  mk_repr months.

(** The aggregator: raw fold followed by normalisation. *)
Definition aggregate (citizens : list citizen) : representation :=
  _get_birthdays_representation (_get_birthdays_data citizens).

(** ** The shared store, the lock service and the handler monad *)

Inductive error : Type :=
| LockTimeout        (* [MongoLockLocked]: lease not obtained in time *)
| NotFound           (* no import with the requested id *)
| StoreUnavailable.  (* a collection operation was rejected *)

Inductive result (A : Type) : Type :=
| Ok (a : A)
| Err (e : error).
Arguments Ok {A} a.
Arguments Err {A} e.

(** A document of [db['imports']]. *)
Record import_doc : Type := mk_import {
  i_import_id : Z;
  citizens : list citizen
}.

(** A document of [db['birthdays']]: [{'import_id': ..., 'data': ...}]. *)
Record birthdays_doc : Type := mk_birthdays {
  b_import_id : Z;
  b_data : months_dict
}.

(** Operations on the shared store, as they take effect. *)
Inductive event : Type :=
| Acquire (resource owner : string) (expire timeout : Z)
| AcquireTimeout (resource owner : string) (expire timeout : Z)
| Release (resource owner : string)
| FindCached (import_id : Z)
| ReadCitizens (import_id : Z)
| InsertBirthdays (doc : birthdays_doc).

(** The state shared by all workers.  [leases] holds the live leases as
    (resource, owner) pairs.  [faults] decides, for each upcoming operation
    on a data collection, whether the store rejects it ([true]); an exhausted
    list means no further rejection.  [log] is the history of operations. *)
Record world : Type := mk_world {
  imports : list import_doc;
  birthdays : list birthdays_doc;
  leases : list (string * string);
  faults : list bool;
  log : list event
}.

Definition set_birthdays (b : list birthdays_doc) (w : world) : world :=
  mk_world (imports w) b (leases w) (faults w) (log w).
Definition set_leases (l : list (string * string)) (w : world) : world :=
  mk_world (imports w) (birthdays w) l (faults w) (log w).
Definition set_faults (f : list bool) (w : world) : world :=
  mk_world (imports w) (birthdays w) (leases w) f (log w).
Definition emit (e : event) (w : world) : world :=
  mk_world (imports w) (birthdays w) (leases w) (faults w) (log w ++ [e]).

Definition M (A : Type) : Type := world -> result A * world.

Definition ret {A} (a : A) : M A := fun w => (Ok a, w).
Definition raise {A} (e : error) : M A := fun w => (Err e, w).
Definition bind {A B} (c : M A) (k : A -> M B) : M B :=
  fun w => match c w with
           | (Ok a, w') => k a w'
           | (Err e, w') => (Err e, w')
           end.

Notation "x <- c ;; k" := (bind c (fun x => k))
  (at level 61, c at next level, right associativity).
Notation "c ;; k" := (bind c (fun _ => k))
  (at level 61, right associativity).

(** Every operation on a data collection first asks the store. *)
Definition store_access : M unit :=
  fun w => match faults w with
           | true :: f => (Err StoreUnavailable, set_faults f w)
           | false :: f => (Ok tt, set_faults f w)
           | [] => (Ok tt, w)
           end.

(** *** The lock service ([mongolock.MongoLock], an external library)

    [lock(key, owner, expire, timeout)] obtains the lease on [key] unless a
    live lease on [key] exists; waiting is not modelled, so a lease that is
    present stays present for the whole [timeout] and the attempt fails.
    [release(key, owner)] ends the lease on [key] held by [owner] and leaves
    the leases of other owners alone. *)

Definition held (resource : string) (w : world) : bool :=
  existsb (fun l => String.eqb (fst l) resource) (leases w).

Definition lock_acquire (resource owner : string) (expire timeout : Z) : M unit :=
  fun w =>
    if held resource w
    then (Err LockTimeout, emit (AcquireTimeout resource owner expire timeout) w)
    else (Ok tt, emit (Acquire resource owner expire timeout)
                   (set_leases (leases w ++ [(resource, owner)]) w)).

Definition lease_matches (resource owner : string) (l : string * string) : bool :=
  String.eqb (fst l) resource && String.eqb (snd l) owner.

Definition lock_release (resource owner : string) : M unit :=
  fun w =>
    (Ok tt,
     emit (Release resource owner)
       (set_leases
          (filter (fun l => negb (lease_matches resource owner l)) (leases w))
          w)).

(** [with lock(resource, owner, expire=..., timeout=...): body].  The context
    manager releases in a [finally], so the release runs whatever the body
    returns or raises; nothing is released when the lease was not obtained. *)
Definition with_lock {A} (resource owner : string) (expire timeout : Z)
  (body : M A) : M A :=
  fun w =>
    match lock_acquire resource owner expire timeout w with
    | (Err e, w1) => (Err e, w1)
    | (Ok _, w1) =>
        let '(r, w2) := body w1 in
        let '(_, w3) := lock_release resource owner w2 in
        (r, w3)
    end.

(** *** The collections *)

Definition _get_cached_birthdays (import_id : Z) : M (option representation) :=
  store_access ;;
  fun w =>
    (Ok (option_map (fun doc => mk_repr (b_data doc))
           (find (fun doc => b_import_id doc =? import_id) (birthdays w))),
     emit (FindCached import_id) w).

Definition _cache_birthdays_data (import_id : Z) (birthdays_data : representation)
  : M unit :=
  let data_ := mk_birthdays import_id (data birthdays_data) in
  store_access ;;
  fun w => (Ok tt, emit (InsertBirthdays data_)
                     (set_birthdays (birthdays w ++ [data_]) w)).

(** Modelled from the spec: [shared.get_citizens] is not among the sources.
    Section 6 gives its contract: it returns the residents of the dataset, or
    fails with [NotFound] if no dataset with that identifier exists.  The
    projection only limits the fields that are transferred; the handler reads
    no other field. *)
Definition get_citizens (import_id : Z) (projection : list (string * Z))
  : M (list citizen) :=
  store_access ;;
  fun w =>
    match find (fun doc => i_import_id doc =? import_id) (imports w) with
    | Some doc => (Ok (citizens doc), emit (ReadCitizens import_id) w)
    | None => (Err NotFound, emit (ReadCitizens import_id) w)
    end.

(** *** The handler *)

(** [pid] is [os.getpid()]. *)
Definition get_birthdays (import_id : Z) (pid : Z) : M (representation * Z) :=
  with_lock (str import_id) (str pid) 60 10
    (with_lock ("birthdays_" ++ str import_id)%string (str pid) 60 10
       (cached_birthdays_data <- _get_cached_birthdays import_id ;;
        match cached_birthdays_data with
        | Some cached => ret (cached, 201)
        | None =>
            citizens <- get_citizens import_id
                          [("citizens.birth_date", 1); ("citizens.relatives", 1)] ;;
            let birthdays_data := _get_birthdays_data citizens in
            let birthdays_data := _get_birthdays_representation birthdays_data in
            _cache_birthdays_data import_id birthdays_data ;;
            ret (birthdays_data, 201)
        end)).

(** [n] calls one after the other, with nothing in between. *)
Fixpoint call_times (n : nat) (import_id pid : Z) (w : world)
  : list (result (representation * Z)) * world :=
  match n with
  | O => ([], w)
  | S n' =>
      let '(r, w1) := get_birthdays import_id pid w in
      let '(rs, w2) := call_times n' import_id pid w1 in
      (r :: rs, w2)
  end.

(** ** Specification-side notions *)

(** Number of times [r] is listed as a relative by a citizen of [cs] born in
    month [m]; repeated entries count separately. *)
Fixpoint gifts (m r : Z) (cs : list citizen) : Z :=
  match cs with
  | [] => 0
  | c :: cs' =>
      (if month (birth_date c) =? m
       then Z.of_nat (count_occ Z.eq_dec (relatives c) r) else 0)
      + gifts m r cs'
  end.

(** Count held by the raw fold for month [m] and relative [r] (0 if none). *)
Definition count_at (m r : Z) (D : birthdays_dict) : Z :=
  match dict_get Z.eqb m D with
  | Some inner =>
      match dict_get Z.eqb r inner with Some n => n | None => 0 end
  | None => 0
  end.

(** The twelve month keys, in the order the representation lists them. *)
Definition month_keys : list string :=
  ["1"; "2"; "3"; "4"; "5"; "6"; "7"; "8"; "9"; "10"; "11"; "12"].

(** A report in normal form: exactly the twelve month keys. *)
Definition normalized (months : months_dict) : Prop :=
  keys months = month_keys.

(** Insertions into [db['birthdays']] recorded in a history. *)
Definition is_insert (e : event) : bool :=
  match e with InsertBirthdays _ => true | _ => false end.
Definition inserts (l : list event) : list event := filter is_insert l.

(** Lock-service operations recorded in a history. *)
Definition is_lock_event (e : event) : bool :=
  match e with
  | Acquire _ _ _ _ | AcquireTimeout _ _ _ _ | Release _ _ => true
  | _ => false
  end.
Definition lock_events (l : list event) : list event := filter is_lock_event l.

(** ** Definitions used in the statements and proofs *)

Definition value_or {V : Type} (dflt : V) (o : option V) : V :=
  match o with Some v => v | None => dflt end.

(** Invariant of the inner counters: one entry per relative, each >= 1. *)
Definition counter_ok (inner : counter) : Prop :=
  NoDup (keys inner) /\ forall r n, In (r, n) inner -> 1 <= n.

(** Invariant of the raw fold. *)
Definition data_ok (D : birthdays_dict) : Prop :=
  NoDup (keys D) /\
  (forall m, In m (keys D) -> 1 <= m <= 12) /\
  (forall m inner, In (m, inner) D -> inner <> [] /\ counter_ok inner).

(** The outer loop, from any starting dictionary. *)
Definition citizens_loop (cs : list citizen) (D : birthdays_dict) : birthdays_dict :=
  fold_left
    (fun D c =>
       fold_left (fun D r => increment (month (birth_date c)) r D)
         (relatives c) D)
    cs D.

(** The list built for month [m] from the raw dictionary [D]. *)
Definition month_list (D : birthdays_dict) (m : Z) : list present_entry :=
  entries_of (fst (@defaultdict_getitem Z counter Z.eqb [] m D)).

(** The loop [for month in birthdays_data: months[str(month)] = ...]. *)
Definition months_loop (D : birthdays_dict) (ks : list Z) (months : months_dict)
  : months_dict :=
  fold_left
    (fun months m => dict_set String.eqb (str m) (month_list D m) months)
    ks months.

Definition empty_months : months_dict :=
  map (fun i => (str i, @nil present_entry)) (range 1 13).

(** The two resource names. *)
Definition import_lock (import_id : Z) : string := str import_id.
Definition birthdays_lock (import_id : Z) : string :=
  ("birthdays_" ++ str import_id)%string.

(** The guarded section of [get_birthdays]. *)
Definition guarded_section (import_id : Z) : M (representation * Z) :=
  cached_birthdays_data <- _get_cached_birthdays import_id ;;
  match cached_birthdays_data with
  | Some cached => ret (cached, 201)
  | None =>
      citizens <- get_citizens import_id
                    [("citizens.birth_date", 1); ("citizens.relatives", 1)] ;;
      let birthdays_data := _get_birthdays_data citizens in
      let birthdays_data := _get_birthdays_representation birthdays_data in
      _cache_birthdays_data import_id birthdays_data ;;
      ret (birthdays_data, 201)
  end.

(** What the cache and the import collection hold for an id. *)
Definition cached (import_id : Z) (w : world) : option birthdays_doc :=
  find (fun doc => b_import_id doc =? import_id) (birthdays w).
Definition dataset (import_id : Z) (w : world) : option import_doc :=
  find (fun doc => i_import_id doc =? import_id) (imports w).

(** Both leases of an import are free. *)
Definition leases_free (import_id : Z) (w : world) : Prop :=
  held (import_lock import_id) w = false /\
  held (birthdays_lock import_id) w = false.

(** The store rejects nothing. *)
Definition store_up (w : world) : Prop := faults w = [].

(** What the guarded section can do to the world, whatever happens in it:
    it leaves the leases and the imports alone, performs no lock operation,
    and either writes nothing or appends one normalised document for the
    requested id, which is also what it returns. *)
Record section_effect (import_id : Z) (w : world)
  (r : result (representation * Z)) (w' : world) (evs : list event) : Prop := {
  se_log : log w' = log w ++ evs;
  se_leases : leases w' = leases w;
  se_imports : imports w' = imports w;
  se_locks : lock_events evs = [];
  se_status : forall x st, r = Ok (x, st) -> st = 201;
  se_store :
    (birthdays w' = birthdays w /\ inserts evs = []) \/
    (exists doc idoc,
        birthdays w' = birthdays w ++ [doc] /\
        inserts evs = [InsertBirthdays doc] /\
        b_import_id doc = import_id /\
        normalized (b_data doc) /\
        cached import_id w = None /\
        dataset import_id w = Some idoc /\
        r = Ok (mk_repr (b_data doc), 201))
}.

(** The three ways a call of [get_birthdays] can go, seen from the store.
    [w] is the world before the call, [w'] the world after it and [r] the
    result. *)
Inductive call_shape (import_id pid : Z) (w : world)
  (r : result (representation * Z)) (w' : world) : Prop :=
| first_lease_timeout :
    held (import_lock import_id) w = true ->
    r = Err LockTimeout ->
    log w' = log w ++ [AcquireTimeout (import_lock import_id) (str pid) 60 10] ->
    birthdays w' = birthdays w ->
    leases w' = leases w ->
    call_shape import_id pid w r w'
| second_lease_timeout :
    held (import_lock import_id) w = false ->
    held (birthdays_lock import_id) w = true ->
    r = Err LockTimeout ->
    log w' = log w ++ [Acquire (import_lock import_id) (str pid) 60 10;
                       AcquireTimeout (birthdays_lock import_id) (str pid) 60 10;
                       Release (import_lock import_id) (str pid)] ->
    birthdays w' = birthdays w ->
    leases w' = leases w ->
    call_shape import_id pid w r w'
| section_entered (evs : list event) (w2 w3 : world) :
    leases_free import_id w ->
    imports w2 = imports w -> birthdays w2 = birthdays w ->
    faults w2 = faults w ->
    guarded_section import_id w2 = (r, w3) ->
    section_effect import_id w2 r w3 evs ->
    log w' = log w ++ [Acquire (import_lock import_id) (str pid) 60 10;
                       Acquire (birthdays_lock import_id) (str pid) 60 10]
                   ++ evs
                   ++ [Release (birthdays_lock import_id) (str pid);
                       Release (import_lock import_id) (str pid)] ->
    birthdays w' = birthdays w3 ->
    faults w' = faults w3 ->
    leases w' = leases w ->
    call_shape import_id pid w r w'.

Definition hit_events (import_id pid : Z) : list event :=
  [Acquire (import_lock import_id) (str pid) 60 10;
   Acquire (birthdays_lock import_id) (str pid) 60 10;
   FindCached import_id;
   Release (birthdays_lock import_id) (str pid);
   Release (import_lock import_id) (str pid)].

Definition fresh_events (import_id pid : Z) (doc : birthdays_doc) : list event :=
  [Acquire (import_lock import_id) (str pid) 60 10;
   Acquire (birthdays_lock import_id) (str pid) 60 10;
   FindCached import_id;
   ReadCitizens import_id;
   InsertBirthdays doc;
   Release (birthdays_lock import_id) (str pid);
   Release (import_lock import_id) (str pid)].

Definition not_found_events (import_id pid : Z) : list event :=
  [Acquire (import_lock import_id) (str pid) 60 10;
   Acquire (birthdays_lock import_id) (str pid) 60 10;
   FindCached import_id;
   ReadCitizens import_id;
   Release (birthdays_lock import_id) (str pid);
   Release (import_lock import_id) (str pid)].

(** Reads of the import collection recorded in a history. *)
Definition is_read (e : event) : bool :=
  match e with ReadCitizens _ => true | _ => false end.
Definition reads (l : list event) : list event := filter is_read l.

(** The two residents of the specification's example. *)
Definition example_residents : list citizen :=
  [mk_citizen 1 (mk_datetime 2000 3 5 eq_refl) [2; 3];
   mk_citizen 4 (mk_datetime 2001 3 20 eq_refl) [2]].

(** A store with one import (id 7) and no cached report, nothing locked. *)
Definition example_world : world :=
  mk_world [mk_import 7 example_residents] [] [] [] [].

(** The same store after one call for import 7 by process 100. *)
Definition example_world_cached : world :=
  snd (get_birthdays 7 100 example_world).

(** The example store while another worker holds the report lease. *)
Definition example_world_busy : world :=
  mk_world [mk_import 7 example_residents] [] [("birthdays_7", "31")] [] [].

(** A sequence of calls [(import_id, pid)], served one after the other. *)
Definition serve (requests : list (Z * Z)) (w : world) : world :=
  fold_left (fun w rq => snd (get_birthdays (fst rq) (snd rq) w)) requests w.

Definition all_normalized (docs : list birthdays_doc) : Prop :=
  Forall (fun doc => normalized (b_data doc)) docs.

(** ** Further notions, for the properties beyond the claims *)

(** Number of relative entries listed by the citizens of [cs] born in [m]. *)
Fixpoint relative_entries (m : Z) (cs : list citizen) : Z :=
  match cs with
  | [] => 0
  | c :: cs' =>
      (if month (birth_date c) =? m
       then Z.of_nat (List.length (relatives c)) else 0)
      + relative_entries m cs'
  end.

(** The relative entries of the citizens born in [m], in input order. *)
Definition relatives_in_month (m : Z) (cs : list citizen) : list Z :=
  flat_map
    (fun c => if month (birth_date c) =? m then relatives c else []) cs.

(** Sum of the [presents] of a month's list. *)
Definition total_presents (l : list present_entry) : Z :=
  fold_right (fun e acc => presents e + acc) 0 l.

(** Sum of the values of a counter. *)
Definition counter_total (inner : counter) : Z :=
  fold_right (fun kv acc => snd kv + acc) 0 inner.

(** A list without its repetitions, each element at its first position. *)
Fixpoint first_occurrences (l : list Z) : list Z :=
  match l with
  | [] => []
  | x :: l' => x :: filter (fun y => negb (y =? x)) (first_occurrences l')
  end.

(** [ks] with [k] appended unless present: the keys after [d[k] = v]. *)
Definition add_key (k : Z) (ks : list Z) : list Z :=
  if existsb (Z.eqb k) ks then ks else ks ++ [k].

(** The fields of a citizen that the projection of the handler keeps. *)
Definition projected (c : citizen) : Z * list Z :=
  (month (birth_date c), relatives c).

Definition has_relatives (c : citizen) : bool :=
  match relatives c with [] => false | _ => true end.

Definition set_imports (im : list import_doc) (w : world) : world :=
  mk_world im (birthdays w) (leases w) (faults w) (log w).

(** ** The route [GET /imports/<import_id>/citizens] of [service.py]

    The view function [citizens] of [make_app], without its decorators (the
    [handle_exceptions] wrapper is not among the sources). *)

Module Service.

(** What the view function can raise. *)
Inductive failure : Type :=
| MongoLockLocked                 (* the lease was not obtained in time *)
| PyMongoError (message : string) (* raised by the route itself *)
| StoreRejected.                  (* the collection operation was rejected *)

Inductive outcome (A : Type) : Type :=
| Returned (a : A)
| Raised (f : failure).
Arguments Returned {A} a.
Arguments Raised {A} f.

(** A citizen as returned: [birth_date] replaced by its formatted string. *)
Record citizen_view : Type := mk_view {
  v_citizen_id : Z;
  v_birth_date : string;
  v_relatives : list Z
}.

(** The response body [{'data': import_data['citizens']}]. *)
Record citizens_response : Type := mk_response { r_data : list citizen_view }.

(** [%d] and [%m]: a decimal number padded with a zero to two digits. *)
Definition pad2 (n : Z) : string :=
  if n <? 10 then String "0" (str n) else str n.

(** [birth_date.strftime('%d.%m.%Y')].  [%Y] is the year as a decimal number;
    C libraries differ on padding it below 1000, so the statements about it
    take a year of four digits. *)
Definition strftime_dmY (dt : datetime) : string :=
  (pad2 (day dt) ++ "." ++ pad2 (month dt) ++ "." ++ str (year dt))%string.

(** The loop body [citizen['birth_date'] = citizen['birth_date'].strftime(...)]. *)
Definition format_citizen (c : citizen) : citizen_view :=
  mk_view (c_citizen_id c) (strftime_dmY (birth_date c)) (relatives c).

(** [db['imports'].find_one({'import_id': import_id}, {'_id': 0, 'import_id': 0})]. *)
Definition find_import (import_id : Z)
  : world -> outcome (option import_doc) * world :=
  fun w =>
    match store_access w with
    | (Err _, w1) => (Raised StoreRejected, w1)
    | (Ok _, w1) =>
        (Returned (find (fun doc => i_import_id doc =? import_id) (imports w1)),
         emit (ReadCitizens import_id) w1)
    end.

(** [with lock(resource, owner, expire=..., timeout=...): body], as
    [with_lock] above, for a body that raises the route's exceptions. *)
Definition with_lock {A} (resource owner : string) (expire timeout : Z)
  (body : world -> outcome A * world) : world -> outcome A * world :=
  fun w =>
    match lock_acquire resource owner expire timeout w with
    | (Err _, w1) => (Raised MongoLockLocked, w1)
    | (Ok _, w1) =>
        let '(r, w2) := body w1 in
        let '(_, w3) := lock_release resource owner w2 in
        (r, w3)
    end.

(** The view function.  [pid] is [os.getpid()]. *)
Definition citizens (import_id : Z) (pid : Z)
  : world -> outcome (citizens_response * Z) * world :=
  with_lock (str import_id) (str pid) 60 10
    (fun w =>
       match find_import import_id w with
       | (Raised f, w1) => (Raised f, w1)
       | (Returned None, w1) =>
           (Raised (PyMongoError "Import with specified id not found"), w1)
       | (Returned (Some import_data), w1) =>
           let citizens := map format_citizen (citizens import_data) in
           (Returned (mk_response citizens, 201), w1)
       end).

(** A date as [datetime] allows it, with a year of four digits. *)
Definition plain_date (dt : datetime) : Prop :=
  1 <= day dt <= 31 /\ 1000 <= year dt <= 9999.

(** Reading a two-digit field back. *)
Definition parse2 (s : string) : Z :=
  match NilZero.int_of_string s with
  | Some i => Z.of_int i
  | None => -1
  end.

End Service.

(** * Facts about the Python built-ins *)

Lemma str_inj (a b : Z) : str a = str b -> a = b.
Proof.
  intro H.
  assert (P : forall z, NilZero.int_of_string (str z) = Some (Z.to_int z)).
  { intro z. unfold str. apply NilZero.isi; destruct z; simpl;
      try discriminate; intros [= E]; exact (Unsigned.to_uint_nonnil _ E). }
  apply DecimalZ.to_int_inj.
  pose proof (P a) as Pa. rewrite H, P in Pa. congruence.
Qed.

Lemma range_1_13 : map str (range 1 13) = month_keys.
Proof. reflexivity. Qed.

Lemma in_range (a b i : Z) : In i (range a b) <-> a <= i < b.
Proof.
  unfold range. rewrite in_map_iff. split.
  - intros (k & <- & Hk). apply in_seq in Hk. lia.
  - intros Hi. exists (Z.to_nat (i - a)). split; [lia|].
    apply in_seq. lia.
Qed.

Section DictFacts.
Context {K V : Type} (eqb : K -> K -> bool).
Hypothesis eqb_eq : forall a b, eqb a b = true <-> a = b.

Local Abbreviation get := (dict_get eqb).
Local Abbreviation set := (dict_set eqb).

Lemma eqb_refl' (k : K) : eqb k k = true.
Proof. now apply eqb_eq. Qed.

Lemma eqb_neq (a b : K) : a <> b -> eqb a b = false.
Proof.
  intro N. destruct (eqb a b) eqn:E; [|reflexivity].
  apply eqb_eq in E. contradiction.
Qed.

Lemma get_set_same (k : K) (v : V) (d : list (K * V)) :
  get k (set k v d) = Some v.
Proof.
  induction d as [|[k' v'] t IH]; simpl.
  - now rewrite eqb_refl'.
  - destruct (eqb k k') eqn:E; simpl; rewrite E; auto.
Qed.

Lemma get_set_other (k k' : K) (v : V) (d : list (K * V)) :
  k <> k' -> get k' (set k v d) = get k' d.
Proof.
  intro N. induction d as [|[k0 v0] t IH]; simpl.
  - rewrite eqb_neq; auto.
  - destruct (eqb k k0) eqn:E; simpl.
    + apply eqb_eq in E; subst k0. rewrite eqb_neq; auto.
    + now rewrite IH.
Qed.

Lemma get_None (k : K) (d : list (K * V)) :
  get k d = None <-> ~ In k (keys d).
Proof.
  induction d as [|[k' v'] t IH]; simpl.
  - tauto.
  - destruct (eqb k k') eqn:E.
    + apply eqb_eq in E. subst. split; [discriminate|tauto].
    + rewrite IH. split; [|tauto].
      intros N [H|H]; [|tauto]. subst k'. rewrite eqb_refl' in E. discriminate.
Qed.

Lemma get_In (k : K) (v : V) (d : list (K * V)) :
  get k d = Some v -> In (k, v) d.
Proof.
  induction d as [|[k' v'] t IH]; simpl; [discriminate|].
  destruct (eqb k k') eqn:E.
  - apply eqb_eq in E. subst. intros [= ->]. now left.
  - auto.
Qed.

Lemma In_get (k : K) (v : V) (d : list (K * V)) :
  NoDup (keys d) -> In (k, v) d -> get k d = Some v.
Proof.
  induction d as [|[k' v'] t IH]; simpl; [tauto|].
  intros ND [H|H]; inversion ND as [|? ? Hn ND']; subst.
  - inversion H; subst. now rewrite eqb_refl'.
  - rewrite eqb_neq; auto.
    intros ->. apply Hn. change (In k' (map fst t)).
    apply in_map_iff. now exists (k', v).
Qed.

Lemma keys_set_present (k : K) (v : V) (d : list (K * V)) :
  In k (keys d) -> keys (set k v d) = keys d.
Proof.
  induction d as [|[k' v'] t IH]; simpl; [tauto|].
  intros H. destruct (eqb k k') eqn:E; simpl; [reflexivity|].
  f_equal. apply IH. destruct H as [H|H]; [|exact H].
  subst. rewrite eqb_refl' in E. discriminate.
Qed.

Lemma keys_set_absent (k : K) (v : V) (d : list (K * V)) :
  ~ In k (keys d) -> keys (set k v d) = keys d ++ [k].
Proof.
  induction d as [|[k' v'] t IH]; simpl; [reflexivity|].
  intros H. destruct (eqb k k') eqn:E; simpl.
  - apply eqb_eq in E. subst. tauto.
  - f_equal. apply IH. tauto.
Qed.

Lemma In_keys_dec (k : K) (d : list (K * V)) :
  In k (keys d) \/ ~ In k (keys d).
Proof.
  destruct (get k d) eqn:E.
  - left. apply get_In in E. change (In k (map fst d)).
    apply in_map_iff. now exists (k, v).
  - right. now apply get_None.
Qed.

Lemma In_keys_set (k k' : K) (v : V) (d : list (K * V)) :
  In k' (keys (set k v d)) <-> k' = k \/ In k' (keys d).
Proof.
  destruct (In_keys_dec k d) as [H|H].
  - rewrite keys_set_present by exact H. split; [tauto|].
    intros [->|?]; auto.
  - rewrite keys_set_absent by exact H. rewrite in_app_iff. simpl.
    split.
    + intros [?|[->|[]]]; auto.
    + intros [->|?]; auto.
Qed.

Lemma NoDup_keys_set (k : K) (v : V) (d : list (K * V)) :
  NoDup (keys d) -> NoDup (keys (set k v d)).
Proof.
  intro ND. destruct (In_keys_dec k d) as [H|H].
  - now rewrite keys_set_present.
  - rewrite keys_set_absent by exact H.
    apply NoDup_rev in ND. rewrite <- (rev_involutive (_ ++ _)).
    apply NoDup_rev. rewrite rev_app_distr. simpl. constructor; auto.
    now rewrite <- in_rev.
Qed.

Lemma In_set (k k' : K) (v v' : V) (d : list (K * V)) :
  In (k', v') (set k v d) -> (k' = k /\ v' = v) \/ In (k', v') d.
Proof.
  induction d as [|[k0 v0] t IH]; simpl.
  - intros [[= <- <-]|[]]. now left.
  - destruct (eqb k k0) eqn:E; simpl.
    + apply eqb_eq in E. subst k0.
      intros [[= <- <-]|H]; [now left|now right; right].
    + intros [H|H]; [now right; left|].
      destruct (IH H); [now left|now right; right].
Qed.

Lemma set_set (k : K) (v v' : V) (d : list (K * V)) :
  set k v (set k v' d) = set k v d.
Proof.
  induction d as [|[k0 v0] t IH]; simpl.
  - now rewrite eqb_refl'.
  - destruct (eqb k k0) eqn:E; simpl; rewrite E; [reflexivity|].
    now rewrite IH.
Qed.

Lemma set_nonempty (k : K) (v : V) (d : list (K * V)) : set k v d <> [].
Proof. destruct d as [|[k' v'] t]; simpl; [|destruct (eqb k k')]; discriminate. Qed.

End DictFacts.

(** * The raw fold [_get_birthdays_data] *)

Lemma Zeqb_eq (a b : Z) : (a =? b) = true <-> a = b.
Proof. apply Z.eqb_eq. Qed.

Lemma Seqb_eq (a b : string) : String.eqb a b = true <-> a = b.
Proof. apply String.eqb_eq. Qed.

(** The net effect of one [+= 1]: one write to the inner counter, one to the
    outer dictionary. *)
Lemma increment_unfold (m r : Z) (D : birthdays_dict) :
  increment m r D =
  let inner := value_or [] (dict_get Z.eqb m D) in
  let n := value_or 0 (dict_get Z.eqb r inner) in
  dict_set Z.eqb m (dict_set Z.eqb r (n + 1) inner) D.
Proof.
  unfold increment, defaultdict_getitem.
  destruct (dict_get Z.eqb m D) as [inner|] eqn:Em; simpl.
  - destruct (dict_get Z.eqb r inner) as [n|] eqn:Er; simpl; [reflexivity|].
    now rewrite (set_set Z.eqb Zeqb_eq).
  - rewrite Z.eqb_refl. now rewrite (set_set Z.eqb Zeqb_eq).
Qed.

Lemma count_at_increment (m r m' r' : Z) (D : birthdays_dict) :
  count_at m' r' (increment m r D) =
  count_at m' r' D + (if (m =? m') && (r =? r') then 1 else 0).
Proof.
  rewrite increment_unfold. cbv zeta. unfold count_at.
  destruct (Z.eqb_spec m m') as [<-|Nm]; simpl.
  - rewrite (get_set_same Z.eqb Zeqb_eq).
    destruct (Z.eqb_spec r r') as [<-|Nr].
    + rewrite (get_set_same Z.eqb Zeqb_eq).
      destruct (dict_get Z.eqb m D) as [inner|]; simpl; reflexivity.
    + rewrite (get_set_other Z.eqb Zeqb_eq) by exact Nr.
      destruct (dict_get Z.eqb m D) as [inner|]; simpl; lia.
  - rewrite (get_set_other Z.eqb Zeqb_eq) by exact Nm. lia.
Qed.

Lemma counter_ok_nil : counter_ok [].
Proof. split; [constructor|intros ? ? []]. Qed.

Lemma data_ok_nil : data_ok [].
Proof. repeat split; try constructor; intros; contradiction. Qed.

Lemma data_ok_get (D : birthdays_dict) (m : Z) :
  data_ok D -> counter_ok (value_or [] (dict_get Z.eqb m D)).
Proof.
  intros (_ & _ & H). destruct (dict_get Z.eqb m D) as [inner|] eqn:E; simpl.
  - apply (get_In Z.eqb Zeqb_eq) in E. now apply H in E.
  - apply counter_ok_nil.
Qed.

Lemma counter_ok_bump (inner : counter) (r : Z) :
  counter_ok inner ->
  counter_ok
    (dict_set Z.eqb r (value_or 0 (dict_get Z.eqb r inner) + 1) inner).
Proof.
  intros [ND Pos]. split.
  - now apply (NoDup_keys_set Z.eqb Zeqb_eq).
  - intros r' n H. apply (In_set Z.eqb Zeqb_eq) in H as [[-> ->]|H].
    + destruct (dict_get Z.eqb r inner) as [k|] eqn:E; simpl; [|lia].
      apply (get_In Z.eqb Zeqb_eq), Pos in E. lia.
    + eauto.
Qed.

Lemma data_ok_increment (m r : Z) (D : birthdays_dict) :
  1 <= m <= 12 -> data_ok D -> data_ok (increment m r D).
Proof.
  intros Hm HD. pose proof (data_ok_get D m HD) as Hin.
  destruct HD as (ND & Rg & In'). rewrite increment_unfold. cbv zeta.
  split; [|split].
  - now apply (NoDup_keys_set Z.eqb Zeqb_eq).
  - intros m' H. apply (In_keys_set Z.eqb Zeqb_eq) in H as [->|H]; auto.
  - intros m' inner' H. apply (In_set Z.eqb Zeqb_eq) in H as [[-> ->]|H].
    + split; [apply set_nonempty|now apply counter_ok_bump].
    + now apply In' in H.
Qed.

Lemma month_bounds (dt : datetime) : 1 <= month dt <= 12.
Proof.
  pose proof (month_range dt) as H. apply andb_true_iff in H. lia.
Qed.

(** The inner loop over one citizen's relatives. *)
Lemma relatives_loop_count (m m' r' : Z) (rs : list Z) (D : birthdays_dict) :
  count_at m' r' (fold_left (fun D r => increment m r D) rs D) =
  count_at m' r' D +
  (if m =? m' then Z.of_nat (count_occ Z.eq_dec rs r') else 0).
Proof.
  revert D. induction rs as [|r rs IH]; intro D; simpl.
  - destruct (m =? m'); lia.
  - rewrite IH, count_at_increment.
    destruct (Z.eqb_spec m m') as [->|]; simpl; [|lia].
    destruct (Z.eq_dec r r') as [->|N].
    + rewrite Z.eqb_refl. lia.
    + destruct (Z.eqb_spec r r'); [contradiction|lia].
Qed.

Lemma relatives_loop_ok (m : Z) (rs : list Z) (D : birthdays_dict) :
  1 <= m <= 12 -> data_ok D ->
  data_ok (fold_left (fun D r => increment m r D) rs D).
Proof.
  intro Hm. revert D. induction rs as [|r rs IH]; intros D HD; simpl; auto.
  apply IH. now apply data_ok_increment.
Qed.

Lemma citizens_loop_count (m r : Z) (cs : list citizen) (D : birthdays_dict) :
  count_at m r (citizens_loop cs D) = count_at m r D + gifts m r cs.
Proof.
  revert D. induction cs as [|c cs IH]; intro D; simpl.
  - lia.
  - unfold citizens_loop in *. simpl. rewrite IH, relatives_loop_count. lia.
Qed.

Lemma citizens_loop_ok (cs : list citizen) (D : birthdays_dict) :
  data_ok D -> data_ok (citizens_loop cs D).
Proof.
  revert D. induction cs as [|c cs IH]; intros D HD; simpl; auto.
  apply IH. apply relatives_loop_ok; auto using month_bounds.
Qed.

Lemma raw_count (m r : Z) (cs : list citizen) :
  count_at m r (_get_birthdays_data cs) = gifts m r cs.
Proof.
  change (_get_birthdays_data cs) with (citizens_loop cs []).
  now rewrite citizens_loop_count.
Qed.

Lemma raw_ok (cs : list citizen) : data_ok (_get_birthdays_data cs).
Proof. apply (citizens_loop_ok cs []), data_ok_nil. Qed.

Lemma gifts_perm (m r : Z) (cs cs' : list citizen) :
  Permutation cs cs' -> gifts m r cs = gifts m r cs'.
Proof.
  induction 1; simpl; lia.
Qed.

(** What the raw fold holds, entry by entry. *)
Lemma raw_entry (cs : list citizen) (m r n : Z) (inner : counter) :
  dict_get Z.eqb m (_get_birthdays_data cs) = Some inner ->
  (In (r, n) inner <-> n = gifts m r cs /\ 1 <= n).
Proof.
  intro E. pose proof (raw_count m r cs) as C. unfold count_at in C.
  rewrite E in C. pose proof (data_ok_get _ m (raw_ok cs)) as [ND Pos].
  rewrite E in ND, Pos. simpl in ND, Pos. split.
  - intro H. split; [|eauto].
    now rewrite (In_get Z.eqb Zeqb_eq _ _ _ ND H) in C.
  - intros [-> Hn]. destruct (dict_get Z.eqb r inner) as [k|] eqn:Er.
    + subst k. now apply (get_In Z.eqb Zeqb_eq).
    + lia.
Qed.

(** * The normalisation [_get_birthdays_representation] *)

Lemma representation_unfold (D : birthdays_dict) :
  data (_get_birthdays_representation D) = months_loop D (keys D) empty_months.
Proof. reflexivity. Qed.

Lemma months_loop_get (D : birthdays_dict) (ks : list Z) (m : Z) :
  forall months,
    dict_get String.eqb (str m) (months_loop D ks months) =
    if in_dec Z.eq_dec m ks then Some (month_list D m)
    else dict_get String.eqb (str m) months.
Proof.
  induction ks as [|k ks IH]; intro months; [reflexivity|].
  unfold months_loop in *. simpl fold_left. rewrite IH.
  destruct (in_dec Z.eq_dec m ks) as [I|I];
    destruct (in_dec Z.eq_dec m (k :: ks)) as [J|J]; auto.
  - exfalso. apply J. now right.
  - destruct J as [->|J]; [|contradiction].
    apply (get_set_same String.eqb Seqb_eq).
  - rewrite (get_set_other String.eqb Seqb_eq); auto.
    intro E. apply str_inj in E. subst. apply J. now left.
Qed.

Lemma months_loop_keys (D : birthdays_dict) (ks : list Z) :
  forall months,
    (forall k, In k ks -> In (str k) (keys months)) ->
    keys (months_loop D ks months) = keys months.
Proof.
  induction ks as [|k ks IH]; intros months H; [reflexivity|].
  unfold months_loop in *. simpl fold_left. rewrite IH.
  - apply (keys_set_present String.eqb Seqb_eq). apply H. now left.
  - intros k' Hk'. rewrite (keys_set_present String.eqb Seqb_eq).
    + apply H. now right.
    + apply H. now left.
Qed.

Lemma twelve_cases (m : Z) :
  1 <= m <= 12 ->
  m = 1 \/ m = 2 \/ m = 3 \/ m = 4 \/ m = 5 \/ m = 6 \/
  m = 7 \/ m = 8 \/ m = 9 \/ m = 10 \/ m = 11 \/ m = 12.
Proof. lia. Qed.

Lemma empty_months_get (m : Z) :
  1 <= m <= 12 -> dict_get String.eqb (str m) empty_months = Some [].
Proof.
  intro H. apply twelve_cases in H.
  repeat (destruct H as [->|H]; [reflexivity|]). subst. reflexivity.
Qed.

Lemma empty_months_keys : keys empty_months = month_keys.
Proof. reflexivity. Qed.

Lemma month_key_of (m : Z) : 1 <= m <= 12 -> In (str m) month_keys.
Proof.
  intro H. rewrite <- range_1_13. apply in_map. apply in_range. lia.
Qed.

Lemma month_keys_inv (k : string) :
  In k month_keys -> exists m, 1 <= m <= 12 /\ k = str m.
Proof.
  rewrite <- range_1_13. intro H. apply in_map_iff in H as (m & <- & H).
  apply in_range in H. exists m. split; [lia|reflexivity].
Qed.

Lemma key_of_get {K V : Type} (eqb : K -> K -> bool)
  (eqb_eq : forall a b, eqb a b = true <-> a = b)
  (k : K) (v : V) (d : list (K * V)) :
  dict_get eqb k d = Some v -> In k (keys d).
Proof.
  intro H. apply (get_In eqb eqb_eq) in H.
  change (In k (map fst d)). apply in_map_iff. now exists (k, v).
Qed.

Lemma representation_keys (D : birthdays_dict) :
  data_ok D -> normalized (data (_get_birthdays_representation D)).
Proof.
  intros (_ & Rg & _). unfold normalized. rewrite representation_unfold.
  rewrite months_loop_keys; [reflexivity|].
  intros k Hk. rewrite empty_months_keys. apply month_key_of. auto.
Qed.

Lemma representation_get (D : birthdays_dict) (m : Z) :
  1 <= m <= 12 ->
  dict_get String.eqb (str m) (data (_get_birthdays_representation D)) =
  Some (entries_of (value_or [] (dict_get Z.eqb m D))).
Proof.
  intro Hm. rewrite representation_unfold, months_loop_get.
  destruct (in_dec Z.eq_dec m (keys D)) as [I|I].
  - unfold month_list, defaultdict_getitem.
    destruct (dict_get Z.eqb m D) as [inner|] eqn:E; [reflexivity|].
    apply (get_None Z.eqb Zeqb_eq) in E. contradiction.
  - apply (get_None Z.eqb Zeqb_eq) in I. rewrite I. simpl.
    now apply empty_months_get.
Qed.

Lemma entries_of_In (inner : counter) (r n : Z) :
  In (mk_entry r n) (entries_of inner) <-> In (r, n) inner.
Proof.
  unfold entries_of, items. rewrite in_map_iff. split.
  - intros ([r' n'] & [= -> ->] & H). exact H.
  - intro H. now exists (r, n).
Qed.

Lemma entries_of_ids (inner : counter) :
  map citizen_id (entries_of inner) = keys inner.
Proof.
  unfold entries_of, items, keys. rewrite map_map.
  apply map_ext. now intros [r n].
Qed.

(** * The aggregator as a whole *)

(** The list reported for a month: one entry per relative that receives at
    least one present, carrying exactly the number of presents. *)
Lemma month_list_spec (cs : list citizen) (m : Z) :
  1 <= m <= 12 ->
  exists l,
    dict_get String.eqb (str m) (data (aggregate cs)) = Some l /\
    NoDup (map citizen_id l) /\
    forall r n, In (mk_entry r n) l <-> n = gifts m r cs /\ 1 <= n.
Proof.
  intro Hm. unfold aggregate. rewrite (representation_get _ m Hm).
  eexists. split; [reflexivity|]. split.
  - rewrite entries_of_ids. apply (data_ok_get _ m (raw_ok cs)).
  - intros r n. rewrite entries_of_In.
    destruct (dict_get Z.eqb m (_get_birthdays_data cs)) as [inner|] eqn:E.
    + simpl. now apply raw_entry.
    + simpl. pose proof (raw_count m r cs) as C. unfold count_at in C.
      rewrite E in C. split; [tauto|]. intros [-> H]. lia.
Qed.

Lemma aggregate_normalized (cs : list citizen) :
  normalized (data (aggregate cs)).
Proof. apply representation_keys, raw_ok. Qed.

Lemma gifts_no_relatives (m r : Z) (cs : list citizen) :
  (forall c, In c cs -> month (birth_date c) = m -> relatives c = []) ->
  gifts m r cs = 0.
Proof.
  induction cs as [|c cs IH]; intro H; simpl; [reflexivity|].
  rewrite IH by (intros; apply H; simpl; auto).
  destruct (Z.eqb_spec (month (birth_date c)) m) as [E|]; [|reflexivity].
  rewrite (H c) by (simpl; auto). reflexivity.
Qed.

Lemma month_without_entries (cs : list citizen) (m : Z) :
  1 <= m <= 12 ->
  (forall r, gifts m r cs = 0) ->
  dict_get String.eqb (str m) (data (aggregate cs)) = Some [].
Proof.
  intros Hm H. destruct (month_list_spec cs m Hm) as (l & E & _ & S).
  rewrite E. f_equal. destruct l as [|[r n] l]; [reflexivity|].
  exfalso. assert (I : In (mk_entry r n) (mk_entry r n :: l)) by now left.
  apply S in I. rewrite H in I. lia.
Qed.

Lemma entry_eta (e : present_entry) : e = mk_entry (citizen_id e) (presents e).
Proof. now destruct e. Qed.

Lemma aggregate_perm_month (cs cs' : list citizen) (m : Z) (l l' : list present_entry) :
  Permutation cs cs' -> 1 <= m <= 12 ->
  dict_get String.eqb (str m) (data (aggregate cs)) = Some l ->
  dict_get String.eqb (str m) (data (aggregate cs')) = Some l' ->
  Permutation l l'.
Proof.
  intros P Hm E E'.
  destruct (month_list_spec cs m Hm) as (l0 & E0 & ND & S).
  destruct (month_list_spec cs' m Hm) as (l1 & E1 & ND' & S').
  rewrite E in E0. injection E0 as <-. rewrite E' in E1. injection E1 as <-.
  apply NoDup_Permutation.
  - now apply NoDup_map_inv in ND.
  - now apply NoDup_map_inv in ND'.
  - intro e. rewrite (entry_eta e), S, S', (gifts_perm m _ cs cs' P). tauto.
Qed.

(** * The handler *)

Arguments _get_birthdays_representation : simpl never.
Arguments _get_birthdays_data : simpl never.

Lemma get_birthdays_unfold (import_id pid : Z) :
  get_birthdays import_id pid =
  with_lock (import_lock import_id) (str pid) 60 10
    (with_lock (birthdays_lock import_id) (str pid) 60 10
       (guarded_section import_id)).
Proof. reflexivity. Qed.

Lemma lock_names_differ (import_id : Z) :
  import_lock import_id <> birthdays_lock import_id.
Proof.
  unfold import_lock, birthdays_lock. intro H.
  apply (f_equal String.length) in H. simpl in H. lia.
Qed.

(** ** The guarded section, path by path *)

Lemma section_hit (import_id : Z) (w : world) (doc : birthdays_doc) :
  store_up w -> cached import_id w = Some doc ->
  guarded_section import_id w =
  (Ok (mk_repr (b_data doc), 201), emit (FindCached import_id) w).
Proof.
  unfold store_up, cached. intros F C.
  unfold guarded_section, _get_cached_birthdays, bind, store_access, ret.
  now rewrite F, C.
Qed.

Lemma section_fresh (import_id : Z) (w : world) (idoc : import_doc) :
  store_up w -> cached import_id w = None ->
  dataset import_id w = Some idoc ->
  guarded_section import_id w =
  (Ok (aggregate (citizens idoc), 201),
   let doc := mk_birthdays import_id (data (aggregate (citizens idoc))) in
   emit (InsertBirthdays doc)
     (set_birthdays (birthdays w ++ [doc])
        (emit (ReadCitizens import_id) (emit (FindCached import_id) w)))).
Proof.
  unfold store_up, cached, dataset. destruct w as [im bi le fa lg].
  simpl. intros -> C I.
  unfold guarded_section, _get_cached_birthdays, get_citizens,
    _cache_birthdays_data, bind, store_access, ret.
  simpl. rewrite C. simpl. rewrite I. reflexivity.
Qed.

Lemma section_not_found (import_id : Z) (w : world) :
  store_up w -> cached import_id w = None -> dataset import_id w = None ->
  guarded_section import_id w =
  (Err NotFound, emit (ReadCitizens import_id) (emit (FindCached import_id) w)).
Proof.
  unfold store_up, cached, dataset. destruct w as [im bi le fa lg].
  simpl. intros -> C I.
  unfold guarded_section, _get_cached_birthdays, get_citizens,
    _cache_birthdays_data, bind, store_access, ret.
  simpl. rewrite C. simpl. rewrite I. reflexivity.
Qed.

Ltac close_effect :=
  eexists; split; simpl;
  [ first [ symmetry; apply app_nil_r | rewrite <- ?app_assoc; reflexivity ]
  | reflexivity
  | reflexivity
  | reflexivity
  | first [ discriminate | now intros ? ? [= _ <-] ]
  | first [ left; split; reflexivity
          | right; do 2 eexists; repeat split; try reflexivity;
            first [ eassumption | apply aggregate_normalized ] ] ].

Lemma guarded_section_effect (import_id : Z) (w : world) :
  exists evs,
    section_effect import_id w
      (fst (guarded_section import_id w)) (snd (guarded_section import_id w)) evs.
Proof.
  unfold guarded_section, _get_cached_birthdays, get_citizens,
    _cache_birthdays_data, bind, store_access, ret, cached, dataset.
  destruct w as [im bi le fa lg].
  destruct fa as [|[|] [|[|] [|[|] fa]]]; simpl;
    repeat match goal with
      | |- context [find ?f ?l] => destruct (find f l) eqn:?; simpl
      end;
    close_effect.
Qed.

(** ** The lock discipline *)

Lemma release_absent (resource owner : string) (ls : list (string * string)) :
  existsb (fun l => String.eqb (fst l) resource) ls = false ->
  filter (fun l => negb (lease_matches resource owner l)) ls = ls.
Proof.
  induction ls as [|l ls IH]; simpl; [reflexivity|].
  intro H. apply orb_false_iff in H as [H1 H2].
  unfold lease_matches at 1. rewrite H1. simpl. now rewrite IH.
Qed.

Lemma release_last (resource owner : string) (ls : list (string * string)) :
  existsb (fun l => String.eqb (fst l) resource) ls = false ->
  filter (fun l => negb (lease_matches resource owner l))
    (ls ++ [(resource, owner)]) = ls.
Proof.
  intro H. rewrite filter_app, release_absent by exact H. simpl.
  unfold lease_matches. simpl. rewrite !String.eqb_refl. simpl.
  apply app_nil_r.
Qed.

Lemma release_keeps_other (resource owner other : string)
  (ls : list (string * string)) :
  other <> resource ->
  existsb (fun l => String.eqb (fst l) resource) ls = false ->
  filter (fun l => negb (lease_matches resource owner l))
    (ls ++ [(other, owner); (resource, owner)]) = ls ++ [(other, owner)].
Proof.
  intros N H. rewrite filter_app, release_absent by exact H. simpl.
  unfold lease_matches. simpl. apply String.eqb_neq in N.
  rewrite ?String.eqb_refl, N. reflexivity.
Qed.

Lemma get_birthdays_shape (import_id pid : Z) (w : world)
  (r : result (representation * Z)) (w' : world) :
  get_birthdays import_id pid w = (r, w') ->
  call_shape import_id pid w r w' /\ imports w' = imports w.
Proof.
  rewrite get_birthdays_unfold.
  pose proof (lock_names_differ import_id) as ND.
  set (A := import_lock import_id) in *. set (B := birthdays_lock import_id) in *.
  unfold with_lock at 1. unfold lock_acquire at 1.
  destruct (held A w) eqn:HA.
  - intros [= <- <-]. split; [|reflexivity]. now apply first_lease_timeout.
  - set (w1 := emit _ (set_leases _ w)).
    assert (HB1 : held B w1 = held B w).
    { unfold held, w1. simpl. rewrite existsb_app. simpl.
      apply String.eqb_neq in ND. rewrite ND. now rewrite !orb_false_r. }
    unfold with_lock at 1. unfold lock_acquire at 1. rewrite HB1.
    destruct (held B w) eqn:HB.
    + intros [= <- <-]. split; [|reflexivity].
      apply second_lease_timeout; auto.
      * simpl. now rewrite <- !app_assoc.
      * simpl. now apply release_last.
    + set (w2 := emit _ (set_leases _ w1)).
      destruct (guarded_section_effect import_id w2) as [evs E].
      destruct (guarded_section import_id w2) as [r3 w3] eqn:G.
      simpl in E. intros [= <- <-].
      pose proof (se_log _ _ _ _ _ E) as El.
      pose proof (se_leases _ _ _ _ _ E) as Els.
      pose proof (se_imports _ _ _ _ _ E) as Eim.
      simpl. split; [|exact Eim].
      apply (section_entered _ _ _ _ _ evs w2 w3); auto.
      * now split.
      * simpl. rewrite El. simpl. now rewrite <- !app_assoc.
      * simpl. rewrite Els. simpl.
        rewrite <- app_assoc. simpl.
        rewrite release_keeps_other; auto.
        now apply release_last.
Qed.

(** ** Single calls with free leases and a store that rejects nothing *)

Lemma world_eq (w : world) im bi le fa lg :
  imports w = im -> birthdays w = bi -> leases w = le -> faults w = fa ->
  log w = lg -> w = mk_world im bi le fa lg.
Proof. destruct w; simpl; intros; subst; reflexivity. Qed.

Lemma entered (import_id pid : Z) (w : world)
  (r : result (representation * Z)) (w' : world) :
  leases_free import_id w ->
  get_birthdays import_id pid w = (r, w') ->
  exists evs w2 w3,
    imports w2 = imports w /\ birthdays w2 = birthdays w /\
    faults w2 = faults w /\
    guarded_section import_id w2 = (r, w3) /\
    section_effect import_id w2 r w3 evs /\
    w' = mk_world (imports w) (birthdays w3) (leases w) (faults w3)
           (log w ++ [Acquire (import_lock import_id) (str pid) 60 10;
                      Acquire (birthdays_lock import_id) (str pid) 60 10]
                  ++ evs
                  ++ [Release (birthdays_lock import_id) (str pid);
                      Release (import_lock import_id) (str pid)]).
Proof.
  intros [FA FB] G. apply get_birthdays_shape in G as [S Im].
  destruct S as [H|H H'|evs w2 w3 _ I2 B2 F2 G2 E L B3 F3 Ls]; try congruence.
  exists evs, w2, w3. repeat (split; [assumption|]). now apply world_eq.
Qed.

Lemma call_hit (import_id pid : Z) (w : world) (doc : birthdays_doc) :
  leases_free import_id w -> store_up w -> cached import_id w = Some doc ->
  get_birthdays import_id pid w =
  (Ok (mk_repr (b_data doc), 201),
   mk_world (imports w) (birthdays w) (leases w) (faults w)
     (log w ++ hit_events import_id pid)).
Proof.
  intros Fr Up C. destruct (get_birthdays import_id pid w) as [r w'] eqn:G.
  destruct (entered _ _ _ _ _ Fr G) as (evs & w2 & w3 & I2 & B2 & F2 & G2 & E & ->).
  rewrite (section_hit import_id w2 doc) in G2.
  - injection G2 as <- <-. pose proof (se_log _ _ _ _ _ E) as L. simpl in L.
    apply app_inv_head in L. subst evs. simpl. now rewrite B2, F2.
  - unfold store_up in *. congruence.
  - unfold cached in *. congruence.
Qed.

Lemma call_fresh (import_id pid : Z) (w : world) (idoc : import_doc) :
  leases_free import_id w -> store_up w -> cached import_id w = None ->
  dataset import_id w = Some idoc ->
  get_birthdays import_id pid w =
  (Ok (aggregate (citizens idoc), 201),
   let doc := mk_birthdays import_id (data (aggregate (citizens idoc))) in
   mk_world (imports w) (birthdays w ++ [doc]) (leases w) (faults w)
     (log w ++ fresh_events import_id pid doc)).
Proof.
  intros Fr Up C D. destruct (get_birthdays import_id pid w) as [r w'] eqn:G.
  destruct (entered _ _ _ _ _ Fr G) as (evs & w2 & w3 & I2 & B2 & F2 & G2 & E & ->).
  rewrite (section_fresh import_id w2 idoc) in G2.
  - injection G2 as <- <-. pose proof (se_log _ _ _ _ _ E) as L. simpl in L.
    rewrite <- !app_assoc in L. apply app_inv_head in L. subst evs. simpl.
    now rewrite B2, F2.
  - unfold store_up in *. congruence.
  - unfold cached in *. congruence.
  - unfold dataset in *. congruence.
Qed.

Lemma call_not_found (import_id pid : Z) (w : world) :
  leases_free import_id w -> store_up w -> cached import_id w = None ->
  dataset import_id w = None ->
  get_birthdays import_id pid w =
  (Err NotFound,
   mk_world (imports w) (birthdays w) (leases w) (faults w)
     (log w ++ not_found_events import_id pid)).
Proof.
  intros Fr Up C D. destruct (get_birthdays import_id pid w) as [r w'] eqn:G.
  destruct (entered _ _ _ _ _ Fr G) as (evs & w2 & w3 & I2 & B2 & F2 & G2 & E & ->).
  rewrite (section_not_found import_id w2) in G2.
  - injection G2 as <- <-. pose proof (se_log _ _ _ _ _ E) as L. simpl in L.
    rewrite <- !app_assoc in L. apply app_inv_head in L. subst evs. simpl.
    now rewrite B2, F2.
  - unfold store_up in *. congruence.
  - unfold cached in *. congruence.
  - unfold dataset in *. congruence.
Qed.

(** Once a report is cached, every further call is a hit. *)
Lemma repeated_hits (import_id pid : Z) (doc : birthdays_doc) (n : nat) :
  forall w,
    leases_free import_id w -> store_up w -> cached import_id w = Some doc ->
    exists evs,
      call_times n import_id pid w =
      (repeat (Ok (mk_repr (b_data doc), 201)) n,
       mk_world (imports w) (birthdays w) (leases w) (faults w) (log w ++ evs))
      /\ inserts evs = [] /\ reads evs = [].
Proof.
  induction n as [|n IH]; intros w Fr Up C.
  - exists []. simpl. rewrite app_nil_r. now destruct w.
  - simpl. rewrite (call_hit import_id pid w doc Fr Up C).
    set (w1 := mk_world _ _ _ _ _).
    destruct (IH w1) as (evs & E & I & R); auto.
    rewrite E. exists (hit_events import_id pid ++ evs). simpl.
    rewrite <- app_assoc. split; [reflexivity|].
    unfold inserts, reads in *. simpl. auto.
Qed.

Lemma find_snoc {A : Type} (f : A -> bool) (l : list A) (x : A) :
  find f l = None -> f x = true -> find f (l ++ [x]) = Some x.
Proof.
  induction l as [|a l IH]; simpl; intros H Hx.
  - now rewrite Hx.
  - destruct (f a); [discriminate|auto].
Qed.

(** ** Any call, whatever the leases and the store do *)

Lemma call_effect (import_id pid : Z) (w : world)
  (r : result (representation * Z)) (w' : world) :
  get_birthdays import_id pid w = (r, w') ->
  exists evs,
    log w' = log w ++ evs /\
    (forall x st, r = Ok (x, st) -> st = 201) /\
    ((inserts evs = [] /\ birthdays w' = birthdays w) \/
     (exists doc idoc,
         inserts evs = [InsertBirthdays doc] /\
         birthdays w' = birthdays w ++ [doc] /\
         b_import_id doc = import_id /\
         normalized (b_data doc) /\
         cached import_id w = None /\
         dataset import_id w = Some idoc /\
         r = Ok (mk_repr (b_data doc), 201))).
Proof.
  intro G. apply get_birthdays_shape in G as [S _].
  destruct S as [H -> L B _|H H' -> L B _|evs w2 w3 _ I2 B2 F2 G2 E L B3 F3 _].
  - eexists. split; [exact L|]. split; [discriminate|]. now left.
  - eexists. split; [exact L|]. split; [discriminate|]. now left.
  - eexists. split; [exact L|]. split; [apply (se_status _ _ _ _ _ E)|].
    assert (I : forall a b c d : event,
               is_insert a = false -> is_insert b = false ->
               is_insert c = false -> is_insert d = false ->
               inserts ([a; b] ++ evs ++ [c; d]) = inserts evs).
    { intros a b c d Ha Hb Hc Hd. unfold inserts.
      rewrite !filter_app. simpl. rewrite Ha, Hb, Hc, Hd. simpl.
      apply app_nil_r. }
    rewrite I by reflexivity.
    destruct (se_store _ _ _ _ _ E) as [[Bd In]|(doc & idoc & Bd & In & Id & N & C & D & R)].
    + left. split; [exact In|]. congruence.
    + right. exists doc, idoc. repeat split; auto.
      * congruence.
      * unfold cached in *. congruence.
      * unfold dataset in *. congruence.
Qed.

(** * Concrete runs *)

Example str_examples : (str 3, str 12, str 0, str (-5)) = ("3", "12", "0", "-5").
Proof. reflexivity. Qed.

(** Repeated relatives count separately; months keep their insertion order
    in the raw dictionary. *)
Example raw_fold_run :
  _get_birthdays_data
    [mk_citizen 1 (mk_datetime 1999 12 31 eq_refl) [5; 5; 6];
     mk_citizen 2 (mk_datetime 2001 2 3 eq_refl) [];
     mk_citizen 3 (mk_datetime 1980 1 9 eq_refl) [5]]
  = [(12, [(5, 2); (6, 1)]); (1, [(5, 1)])].
Proof. reflexivity. Qed.

(** Another worker holds the report lease: the first lease is taken and
    given back, nothing else happens. *)
Example busy_run :
  get_birthdays 7 100 example_world_busy
  = (Err LockTimeout,
     mk_world [mk_import 7 example_residents] [] [("birthdays_7", "31")] []
       [Acquire "7" "100" 60 10;
        AcquireTimeout "birthdays_7" "100" 60 10;
        Release "7" "100"]).
Proof. reflexivity. Qed.

(** The store rejects the insertion: the error surfaces, nothing is stored,
    both leases are given back. *)
Example rejected_insert_run :
  get_birthdays 7 100
    (mk_world [mk_import 7 example_residents] [] [] [false; false; true] [])
  = (Err StoreUnavailable,
     mk_world [mk_import 7 example_residents] [] [] []
       [Acquire "7" "100" 60 10; Acquire "birthdays_7" "100" 60 10;
        FindCached 7; ReadCitizens 7;
        Release "birthdays_7" "100"; Release "7" "100"]).
Proof. reflexivity. Qed.

Example cached_world_run :
  birthdays example_world_cached
  = [mk_birthdays 7 (data (aggregate example_residents))].
Proof. reflexivity. Qed.

(** * The claims *)

(** C2. For the two residents of the example the aggregation yields month
    ["3"] with the entries (2, 2 presents) and (3, 1 present), in some order,
    and the empty list for each of the eleven other month keys. *)
Theorem example_aggregate :
  keys (data (aggregate example_residents)) = month_keys /\
  (exists l,
      dict_get String.eqb "3" (data (aggregate example_residents)) = Some l /\
      Permutation l [mk_entry 2 2; mk_entry 3 1]) /\
  (forall k, In k month_keys -> k <> "3" ->
             dict_get String.eqb k (data (aggregate example_residents)) = Some []).
Proof.
  split; [reflexivity|]. split.
  - eexists. split; [reflexivity|]. apply Permutation_refl.
  - intros k H N. simpl in H.
    repeat (destruct H as [<-|H]; [try reflexivity; now elim N|]).
    contradiction.
Qed.

(** C3. The raw fold holds, for each month and relative, exactly the number
    of relative entries naming that relative among the citizens born in that
    month (repeated entries counted separately); the list reported under a
    month key has one entry per relative with at least one such entry, and
    its [presents] is that number. *)
Theorem aggregate_counts (cs : list citizen) (m r : Z) :
  1 <= m <= 12 ->
  count_at m r (_get_birthdays_data cs) = gifts m r cs /\
  exists l,
    dict_get String.eqb (str m) (data (aggregate cs)) = Some l /\
    NoDup (map citizen_id l) /\
    forall n, In (mk_entry r n) l <-> n = gifts m r cs /\ 1 <= n.
Proof.
  intro Hm. split; [apply raw_count|].
  destruct (month_list_spec cs m Hm) as (l & E & ND & S).
  exists l. auto.
Qed.

Lemma aggregate_counts_witness :
  count_at 3 2 (_get_birthdays_data example_residents)
  = gifts 3 2 example_residents /\
  exists l,
    dict_get String.eqb (str 3) (data (aggregate example_residents)) = Some l /\
    NoDup (map citizen_id l) /\
    forall n, In (mk_entry 2 n) l <-> n = gifts 3 2 example_residents /\ 1 <= n.
Proof. apply (aggregate_counts example_residents 3 2). lia. Defined.

(** C4. For every list of citizens, the empty one included, the normalised
    output has exactly the keys ["1"] to ["12"], and a month to which no
    relative entry contributes is mapped to the empty list. *)
Theorem twelve_month_keys (cs : list citizen) :
  keys (data (aggregate cs)) = month_keys /\
  data (aggregate []) = map (fun k => (k, [])) month_keys /\
  forall m, 1 <= m <= 12 -> (forall r, gifts m r cs = 0) ->
            dict_get String.eqb (str m) (data (aggregate cs)) = Some [].
Proof.
  split; [apply aggregate_normalized|]. split; [reflexivity|].
  intros m Hm H. now apply month_without_entries.
Qed.

Lemma twelve_month_keys_witness :
  dict_get String.eqb (str 5) (data (aggregate example_residents)) = Some [].
Proof.
  apply (proj2 (proj2 (twelve_month_keys example_residents)) 5); [lia|].
  intro r. reflexivity.
Defined.

(** C5. Permuting the input leaves the output unchanged up to the order
    inside each month's list: same keys, and under each key the two lists are
    permutations of one another (the same citizen_id/presents pairs). *)
Theorem aggregate_order_independent (cs cs' : list citizen) :
  Permutation cs cs' ->
  keys (data (aggregate cs)) = keys (data (aggregate cs')) /\
  (forall m r, count_at m r (_get_birthdays_data cs)
               = count_at m r (_get_birthdays_data cs')) /\
  forall k l,
    dict_get String.eqb k (data (aggregate cs)) = Some l ->
    exists l',
      dict_get String.eqb k (data (aggregate cs')) = Some l' /\
      Permutation l l'.
Proof.
  intro P. split; [|split].
  - now rewrite !aggregate_normalized.
  - intros m r. rewrite !raw_count. now apply gifts_perm.
  - intros k l E.
    pose proof (key_of_get String.eqb Seqb_eq _ _ _ E) as Hk.
    rewrite aggregate_normalized in Hk.
    apply month_keys_inv in Hk as (m & Hm & ->).
    destruct (month_list_spec cs' m Hm) as (l' & E' & _).
    exists l'. split; [exact E'|].
    now apply (aggregate_perm_month cs cs' m).
Qed.

Lemma aggregate_order_independent_witness :
  keys (data (aggregate example_residents))
  = keys (data (aggregate (rev example_residents))) /\
  (forall m r, count_at m r (_get_birthdays_data example_residents)
               = count_at m r (_get_birthdays_data (rev example_residents))) /\
  forall k l,
    dict_get String.eqb k (data (aggregate example_residents)) = Some l ->
    exists l',
      dict_get String.eqb k (data (aggregate (rev example_residents))) = Some l' /\
      Permutation l l'.
Proof.
  apply (aggregate_order_independent example_residents (rev example_residents)).
  apply Permutation_rev.
Defined.

(** C10. No entry of the normalised output has [presents] below 1, and a
    month in which citizens are born but none of them lists a relative is
    reported with the empty list. *)
Theorem presents_at_least_one (cs : list citizen) :
  (forall k l e,
      dict_get String.eqb k (data (aggregate cs)) = Some l ->
      In e l -> 1 <= presents e) /\
  (forall m, 1 <= m <= 12 ->
      (forall c, In c cs -> month (birth_date c) = m -> relatives c = []) ->
      dict_get String.eqb (str m) (data (aggregate cs)) = Some []).
Proof.
  split.
  - intros k l e E I.
    pose proof (key_of_get String.eqb Seqb_eq _ _ _ E) as Hk.
    rewrite aggregate_normalized in Hk.
    apply month_keys_inv in Hk as (m & Hm & ->).
    destruct (month_list_spec cs m Hm) as (l0 & E0 & _ & S).
    rewrite E in E0. injection E0 as <-.
    rewrite (entry_eta e) in I. apply S in I. simpl. tauto.
  - intros m Hm H. apply month_without_entries; [exact Hm|].
    intro r. now apply gifts_no_relatives.
Qed.

Lemma presents_at_least_one_witness :
  1 <= presents (mk_entry 3 1) /\
  dict_get String.eqb (str 4)
    (data (aggregate [mk_citizen 9 (mk_datetime 1990 4 1 eq_refl) []])) = Some [].
Proof.
  split.
  - apply (proj1 (presents_at_least_one example_residents) "3"
             [mk_entry 2 2; mk_entry 3 1]); [reflexivity|].
    simpl. right. left. reflexivity.
  - apply (proj2 (presents_at_least_one
                    [mk_citizen 9 (mk_datetime 1990 4 1 eq_refl) []]) 4); [lia|].
    intros c [<-|[]] _. reflexivity.
Defined.

(** ** The claims about the handler *)

(** C1. When the dataset exists (and the leases are free and the store
    answers), N > 1 calls in a row all succeed with the same content and
    status; at most one insertion into [db['birthdays']] happens over all of
    them, namely in the first call when nothing was cached; every later call
    is a cache hit that neither reads the citizens nor inserts. *)
Theorem get_birthdays_idempotent (import_id pid : Z) (w : world)
  (idoc : import_doc) (n : nat) :
  dataset import_id w = Some idoc -> leases_free import_id w -> store_up w ->
  exists content w1 w' evs1 evs,
    get_birthdays import_id pid w = (Ok (content, 201), w1) /\
    call_times (S n) import_id pid w1 = (repeat (Ok (content, 201)) (S n), w') /\
    call_times (S (S n)) import_id pid w
    = (repeat (Ok (content, 201)) (S (S n)), w') /\
    log w1 = log w ++ evs1 /\ log w' = log w1 ++ evs /\
    (List.length (inserts (evs1 ++ evs)) <= 1)%nat /\
    inserts evs = [] /\ reads evs = [] /\
    birthdays w' = birthdays w1 /\
    match cached import_id w with
    | Some doc =>
        content = mk_repr (b_data doc) /\
        inserts evs1 = [] /\ birthdays w1 = birthdays w
    | None =>
        content = aggregate (citizens idoc) /\
        inserts evs1 = [InsertBirthdays (mk_birthdays import_id (data content))] /\
        birthdays w1 = birthdays w ++ [mk_birthdays import_id (data content)]
    end.
Proof.
  intros D Fr Up.
  assert (Step : forall content w1 evs1 doc,
             get_birthdays import_id pid w = (Ok (content, 201), w1) ->
             w1 = mk_world (imports w) (birthdays w1) (leases w) (faults w)
                    (log w ++ evs1) ->
             cached import_id w1 = Some doc ->
             content = mk_repr (b_data doc) ->
             (List.length (inserts evs1) <= 1)%nat ->
             exists w' evs,
               call_times (S n) import_id pid w1
               = (repeat (Ok (content, 201)) (S n), w') /\
               call_times (S (S n)) import_id pid w
               = (repeat (Ok (content, 201)) (S (S n)), w') /\
               log w1 = log w ++ evs1 /\ log w' = log w1 ++ evs /\
               (List.length (inserts (evs1 ++ evs)) <= 1)%nat /\
               inserts evs = [] /\ reads evs = [] /\
               birthdays w' = birthdays w1).
  { intros content w1 evs1 doc G W C1 -> Len.
    assert (Fr1 : leases_free import_id w1).
    { rewrite W. exact Fr. }
    assert (Up1 : store_up w1).
    { rewrite W. exact Up. }
    destruct (repeated_hits import_id pid doc (S n) w1 Fr1 Up1 C1)
      as (evs & E & I & R).
    eexists. exists evs. split; [exact E|].
    split.
    { change (call_times (S (S n)) import_id pid w) with
        (let '(r, w1) := get_birthdays import_id pid w in
         let '(rs, w2) := call_times (S n) import_id pid w1 in (r :: rs, w2)).
      rewrite G, E. reflexivity. }
    split; [rewrite W; reflexivity|]. split; [reflexivity|].
    split; [|auto].
    unfold inserts in *. rewrite filter_app, I, app_nil_r. exact Len. }
  destruct (cached import_id w) as [doc|] eqn:C.
  - pose proof (call_hit import_id pid w doc Fr Up C) as G.
    destruct (Step _ _ (hit_events import_id pid) doc G) as (w' & evs & H);
      auto.
    exists (mk_repr (b_data doc)). eexists. exists w', (hit_events import_id pid), evs.
    split; [exact G|]. decompose [and] H. repeat (split; [assumption|]).
    repeat split.
  - pose proof (call_fresh import_id pid w idoc Fr Up C D) as G.
    cbv zeta in G.
    set (doc := mk_birthdays import_id (data (aggregate (citizens idoc)))) in *.
    destruct (Step _ _ (fresh_events import_id pid doc) doc G) as (w' & evs & H);
      auto.
    { unfold cached. simpl. apply find_snoc; [exact C|]. simpl. apply Z.eqb_refl. }
    exists (aggregate (citizens idoc)). eexists.
    exists w', (fresh_events import_id pid doc), evs.
    split; [exact G|]. decompose [and] H. repeat (split; [assumption|]).
    repeat split.
Qed.

Lemma get_birthdays_idempotent_witness :
  exists content w1 w' evs1 evs,
    get_birthdays 7 100 example_world = (Ok (content, 201), w1) /\
    call_times 2 7 100 w1 = (repeat (Ok (content, 201)) 2, w') /\
    call_times 3 7 100 example_world = (repeat (Ok (content, 201)) 3, w') /\
    log w1 = log example_world ++ evs1 /\ log w' = log w1 ++ evs /\
    (List.length (inserts (evs1 ++ evs)) <= 1)%nat /\
    inserts evs = [] /\ reads evs = [] /\
    birthdays w' = birthdays w1 /\
    match cached 7 example_world with
    | Some doc =>
        content = mk_repr (b_data doc) /\
        inserts evs1 = [] /\ birthdays w1 = birthdays example_world
    | None =>
        content = aggregate (citizens (mk_import 7 example_residents)) /\
        inserts evs1 = [InsertBirthdays (mk_birthdays 7 (data content))] /\
        birthdays w1 = birthdays example_world ++ [mk_birthdays 7 (data content)]
    end.
Proof.
  apply (get_birthdays_idempotent 7 100 example_world
           (mk_import 7 example_residents) 1).
  - reflexivity.
  - split; reflexivity.
  - reflexivity.
Defined.

(** C6. When the import has neither a dataset nor a cached report, the call
    writes nothing to [db['birthdays']] (whatever the leases and the store
    do), and with the leases free and the store answering it fails with
    [NotFound], the error of the dataset read. *)
Theorem not_found_writes_nothing (import_id pid : Z) (w : world) :
  dataset import_id w = None -> cached import_id w = None ->
  birthdays (snd (get_birthdays import_id pid w)) = birthdays w /\
  (exists evs,
      log (snd (get_birthdays import_id pid w)) = log w ++ evs /\
      inserts evs = []) /\
  (leases_free import_id w -> store_up w ->
   fst (get_birthdays import_id pid w) = Err NotFound /\
   snd (get_birthdays import_id pid w)
   = mk_world (imports w) (birthdays w) (leases w) (faults w)
       (log w ++ not_found_events import_id pid)).
Proof.
  intros D C. destruct (get_birthdays import_id pid w) as [r w'] eqn:G.
  simpl. destruct (call_effect _ _ _ _ _ G) as (evs & L & _ & S).
  destruct S as [[I B]|(doc & idoc & _ & _ & _ & _ & _ & D' & _)];
    [|congruence].
  split; [exact B|]. split; [now exists evs|].
  intros Fr Up. rewrite (call_not_found import_id pid w Fr Up C D) in G.
  injection G as <- <-. split; reflexivity.
Qed.

Lemma not_found_writes_nothing_witness :
  birthdays (snd (get_birthdays 8 100 example_world)) = birthdays example_world /\
  fst (get_birthdays 8 100 example_world) = Err NotFound /\
  snd (get_birthdays 8 100 example_world)
  = mk_world (imports example_world) (birthdays example_world)
      (leases example_world) (faults example_world)
      (log example_world ++ not_found_events 8 100).
Proof.
  destruct (not_found_writes_nothing 8 100 example_world eq_refl eq_refl)
    as (B & _ & R).
  split; [exact B|]. apply R; [split|]; reflexivity.
Defined.

(** C7. The lock operations of a call, in order.  The lease on
    [str(import_id)] is requested first and the lease on
    ["birthdays_" + str(import_id)] second, both with expire 60 and timeout
    10.  Once both are obtained the guarded section runs and, whatever it
    returns or raises (hit, fresh report, [NotFound], a rejected store
    operation), the leases are released second first, first last.  When a
    lease is not obtained, the call fails with [LockTimeout] and releases
    exactly what it had obtained.  The lease table is the same after the call
    as before. *)
Theorem lease_discipline (import_id pid : Z) (w : world) :
  exists evs,
    log (snd (get_birthdays import_id pid w)) = log w ++ evs /\
    leases (snd (get_birthdays import_id pid w)) = leases w /\
    ((held (str import_id) w = true /\
      fst (get_birthdays import_id pid w) = Err LockTimeout /\
      evs = [AcquireTimeout (str import_id) (str pid) 60 10])
     \/
     (held (str import_id) w = false /\
      held ("birthdays_" ++ str import_id)%string w = true /\
      fst (get_birthdays import_id pid w) = Err LockTimeout /\
      evs = [Acquire (str import_id) (str pid) 60 10;
             AcquireTimeout ("birthdays_" ++ str import_id)%string (str pid) 60 10;
             Release (str import_id) (str pid)])
     \/
     (held (str import_id) w = false /\
      held ("birthdays_" ++ str import_id)%string w = false /\
      exists body,
        lock_events body = [] /\
        evs = [Acquire (str import_id) (str pid) 60 10;
               Acquire ("birthdays_" ++ str import_id)%string (str pid) 60 10]
              ++ body
              ++ [Release ("birthdays_" ++ str import_id)%string (str pid);
                  Release (str import_id) (str pid)] /\
        lock_events evs
        = [Acquire (str import_id) (str pid) 60 10;
           Acquire ("birthdays_" ++ str import_id)%string (str pid) 60 10;
           Release ("birthdays_" ++ str import_id)%string (str pid);
           Release (str import_id) (str pid)])).
Proof.
  destruct (get_birthdays import_id pid w) as [r w'] eqn:G. simpl.
  apply get_birthdays_shape in G as [S _].
  destruct S as [H -> L _ Ls|H H' -> L _ Ls|body w2 w3 [H H'] _ _ _ _ E L _ _ Ls].
  - eexists. split; [exact L|]. split; [exact Ls|]. left. auto.
  - eexists. split; [exact L|]. split; [exact Ls|]. right. left. auto.
  - eexists. split; [exact L|]. split; [exact Ls|]. right. right.
    split; [exact H|]. split; [exact H'|]. exists body.
    pose proof (se_locks _ _ _ _ _ E) as K.
    split; [exact K|]. split; [reflexivity|].
    unfold lock_events in *. rewrite !filter_app, K. reflexivity.
Qed.

(** C8. A call changes [db['birthdays']] in one way only: by appending one
    document for the requested id whose data has exactly the twelve month
    keys.  So a store in which every report is normalised stays so under any
    sequence of calls, with any leases held and any store operations
    rejected: whatever is found under an id is a full twelve-month report. *)
Theorem store_stays_normalized (import_id pid : Z) (w : world) :
  (exists evs,
      log (snd (get_birthdays import_id pid w)) = log w ++ evs /\
      ((inserts evs = [] /\
        birthdays (snd (get_birthdays import_id pid w)) = birthdays w) \/
       (exists doc,
           inserts evs = [InsertBirthdays doc] /\
           birthdays (snd (get_birthdays import_id pid w)) = birthdays w ++ [doc] /\
           b_import_id doc = import_id /\
           normalized (b_data doc)))) /\
  (forall requests,
      all_normalized (birthdays w) ->
      all_normalized (birthdays (serve requests w)) /\
      forall id,
        match cached id (serve requests w) with
        | Some doc => normalized (b_data doc)
        | None => True
        end).
Proof.
  assert (One : forall id p v,
             all_normalized (birthdays v) ->
             all_normalized (birthdays (snd (get_birthdays id p v)))).
  { intros id p v N. destruct (get_birthdays id p v) as [r v'] eqn:G. simpl.
    destruct (call_effect _ _ _ _ _ G) as (evs & _ & _ & S).
    destruct S as [[_ ->]|(doc & idoc & _ & -> & _ & Nd & _)]; [exact N|].
    apply Forall_app. split; [exact N|]. now constructor. }
  split.
  - destruct (get_birthdays import_id pid w) as [r w'] eqn:G. simpl.
    destruct (call_effect _ _ _ _ _ G) as (evs & L & _ & S).
    exists evs. split; [exact L|].
    destruct S as [S|(doc & idoc & I & B & Id & Nd & _)]; [now left|].
    right. exists doc. auto.
  - intros requests. revert w.
    assert (All : forall v, all_normalized (birthdays v) ->
                            all_normalized (birthdays (serve requests v))).
    { induction requests as [|[id p] rs IH]; intros v N; [exact N|].
      simpl. apply IH. now apply One. }
    intros w N. split; [now apply All|].
    intro id. destruct (cached id (serve requests w)) as [doc|] eqn:C; [|exact I].
    apply find_some in C as [C _].
    apply All in N. unfold all_normalized in N. rewrite Forall_forall in N.
    now apply N.
Qed.

Lemma store_stays_normalized_witness :
  all_normalized (birthdays (serve [(7, 100); (8, 100); (7, 101)] example_world)) /\
  match cached 7 (serve [(7, 100); (8, 100); (7, 101)] example_world) with
  | Some doc => normalized (b_data doc)
  | None => True
  end.
Proof.
  destruct (proj2 (store_stays_normalized 7 100 example_world)
              [(7, 100); (8, 100); (7, 101)]) as [A B].
  - constructor.
  - split; [exact A|exact (B 7)].
Defined.

(** C9. A successful call returns status 201, on a cache hit and after a
    fresh computation alike. *)
Theorem status_is_201 (import_id pid : Z) (w : world) :
  match fst (get_birthdays import_id pid w) with
  | Ok (_, status) => status = 201
  | Err _ => True
  end /\
  (forall doc,
      leases_free import_id w -> store_up w -> cached import_id w = Some doc ->
      fst (get_birthdays import_id pid w) = Ok (mk_repr (b_data doc), 201)) /\
  (forall idoc,
      leases_free import_id w -> store_up w -> cached import_id w = None ->
      dataset import_id w = Some idoc ->
      fst (get_birthdays import_id pid w) = Ok (aggregate (citizens idoc), 201)).
Proof.
  split; [|split].
  - destruct (get_birthdays import_id pid w) as [r w'] eqn:G. simpl.
    destruct (call_effect _ _ _ _ _ G) as (evs & _ & St & _).
    destruct r as [[x st]|e]; [|exact I]. now apply (St x st).
  - intros doc Fr Up C. now rewrite (call_hit import_id pid w doc Fr Up C).
  - intros idoc Fr Up C D.
    now rewrite (call_fresh import_id pid w idoc Fr Up C D).
Qed.

Lemma status_is_201_witness :
  fst (get_birthdays 7 100 example_world)
  = Ok (aggregate example_residents, 201) /\
  fst (get_birthdays 7 101 example_world_cached)
  = Ok (aggregate example_residents, 201).
Proof.
  split.
  - apply (proj2 (proj2 (status_is_201 7 100 example_world))
             (mk_import 7 example_residents));
      [split| | |]; reflexivity.
  - apply (proj1 (proj2 (status_is_201 7 101 example_world_cached))
             (mk_birthdays 7 (data (aggregate example_residents))));
      [split| |]; reflexivity.
Defined.

(** * Beyond the claims: the aggregation *)

Lemma counter_total_set (k v : Z) (d : counter) :
  counter_total (dict_set Z.eqb k v d)
  = counter_total d - value_or 0 (dict_get Z.eqb k d) + v.
Proof.
  induction d as [|[k' v'] t IH]; simpl; [lia|].
  destruct (k =? k') eqn:E; simpl; [lia|]. rewrite IH. lia.
Qed.

Lemma total_presents_entries (inner : counter) :
  total_presents (entries_of inner) = counter_total inner.
Proof.
  unfold entries_of, items. induction inner as [|[r n] t IH]; simpl; [reflexivity|].
  now rewrite IH.
Qed.

Lemma month_total_increment (m r m' : Z) (D : birthdays_dict) :
  counter_total (value_or [] (dict_get Z.eqb m' (increment m r D)))
  = counter_total (value_or [] (dict_get Z.eqb m' D))
    + (if m =? m' then 1 else 0).
Proof.
  rewrite increment_unfold. cbv zeta.
  destruct (Z.eqb_spec m m') as [<-|N].
  - rewrite (get_set_same Z.eqb Zeqb_eq). simpl.
    rewrite counter_total_set. lia.
  - rewrite (get_set_other Z.eqb Zeqb_eq) by exact N. lia.
Qed.

Lemma month_total_relatives (m m' : Z) (rs : list Z) (D : birthdays_dict) :
  counter_total
    (value_or [] (dict_get Z.eqb m' (fold_left (fun D r => increment m r D) rs D)))
  = counter_total (value_or [] (dict_get Z.eqb m' D))
    + (if m =? m' then Z.of_nat (List.length rs) else 0).
Proof.
  revert D. induction rs as [|r rs IH]; intro D.
  - simpl. destruct (m =? m'); lia.
  - simpl fold_left. rewrite IH, month_total_increment.
    simpl List.length. destruct (m =? m'); lia.
Qed.

Lemma month_total_citizens (m : Z) (cs : list citizen) (D : birthdays_dict) :
  counter_total (value_or [] (dict_get Z.eqb m (citizens_loop cs D)))
  = counter_total (value_or [] (dict_get Z.eqb m D)) + relative_entries m cs.
Proof.
  revert D. induction cs as [|c cs IH]; intro D; simpl; [lia|].
  unfold citizens_loop in *. simpl. rewrite IH, month_total_relatives. lia.
Qed.

(** X1. Nothing is lost and nothing invented: the presents reported under a
    month add up to the number of relative entries of the citizens born in
    that month. *)
Theorem month_presents_add_up (cs : list citizen) (m : Z) :
  1 <= m <= 12 ->
  exists l,
    dict_get String.eqb (str m) (data (aggregate cs)) = Some l /\
    total_presents l = relative_entries m cs.
Proof.
  intro Hm. unfold aggregate. rewrite (representation_get _ m Hm).
  eexists. split; [reflexivity|].
  rewrite total_presents_entries.
  change (_get_birthdays_data cs) with (citizens_loop cs []).
  now rewrite month_total_citizens.
Qed.

Lemma month_presents_add_up_witness :
  exists l,
    dict_get String.eqb (str 3) (data (aggregate example_residents)) = Some l /\
    total_presents l = relative_entries 3 example_residents.
Proof. apply (month_presents_add_up example_residents 3). lia. Defined.

Lemma citizens_loop_projected (cs : list citizen) :
  forall cs' D,
    map projected cs = map projected cs' ->
    citizens_loop cs D = citizens_loop cs' D.
Proof.
  induction cs as [|c cs IH]; intros [|c' cs'] D H; try discriminate;
    [reflexivity|].
  injection H as Hm Hr Ht. unfold citizens_loop in *. simpl.
  rewrite Hm, Hr. now apply IH.
Qed.

(** X2. The report depends on nothing but the birth months and the relatives
    lists, in input order: citizens that agree on those two give the very
    same report, whatever their ids, birth years and birth days. *)
Theorem aggregate_reads_month_and_relatives (cs cs' : list citizen) :
  map projected cs = map projected cs' ->
  _get_birthdays_data cs = _get_birthdays_data cs' /\
  aggregate cs = aggregate cs'.
Proof.
  intro H.
  assert (E : _get_birthdays_data cs = _get_birthdays_data cs')
    by now apply (citizens_loop_projected cs cs' []).
  split; [exact E|]. unfold aggregate. now rewrite E.
Qed.

Lemma aggregate_reads_month_and_relatives_witness :
  _get_birthdays_data example_residents
  = _get_birthdays_data
      [mk_citizen 50 (mk_datetime 1931 3 28 eq_refl) [2; 3];
       mk_citizen 60 (mk_datetime 1987 3 1 eq_refl) [2]] /\
  aggregate example_residents
  = aggregate
      [mk_citizen 50 (mk_datetime 1931 3 28 eq_refl) [2; 3];
       mk_citizen 60 (mk_datetime 1987 3 1 eq_refl) [2]].
Proof.
  apply (aggregate_reads_month_and_relatives example_residents).
  reflexivity.
Defined.

Lemma keys_dict_set (k v : Z) (d : counter) :
  keys (dict_set Z.eqb k v d) = add_key k (keys d).
Proof.
  unfold add_key. induction d as [|[k' v'] t IH]; simpl; [reflexivity|].
  destruct (k =? k') eqn:E; simpl; [reflexivity|].
  rewrite IH. change (map fst t) with (keys t).
  now destruct (existsb (Z.eqb k) (keys t)).
Qed.

Lemma inner_keys_increment (m r m' : Z) (D : birthdays_dict) :
  keys (value_or [] (dict_get Z.eqb m' (increment m r D)))
  = if m =? m'
    then add_key r (keys (value_or [] (dict_get Z.eqb m' D)))
    else keys (value_or [] (dict_get Z.eqb m' D)).
Proof.
  rewrite increment_unfold. cbv zeta.
  destruct (Z.eqb_spec m m') as [<-|N].
  - rewrite (get_set_same Z.eqb Zeqb_eq). simpl. apply keys_dict_set.
  - now rewrite (get_set_other Z.eqb Zeqb_eq) by exact N.
Qed.

Lemma inner_keys_relatives (m m' : Z) (rs : list Z) (D : birthdays_dict) :
  keys (value_or [] (dict_get Z.eqb m'
                       (fold_left (fun D r => increment m r D) rs D)))
  = fold_left (fun ks r => add_key r ks) (if m =? m' then rs else [])
      (keys (value_or [] (dict_get Z.eqb m' D))).
Proof.
  revert D. induction rs as [|r rs IH]; intro D.
  - simpl. now destruct (m =? m').
  - simpl fold_left at 1. rewrite IH, inner_keys_increment.
    now destruct (m =? m').
Qed.

Lemma inner_keys_citizens (m : Z) (cs : list citizen) (D : birthdays_dict) :
  keys (value_or [] (dict_get Z.eqb m (citizens_loop cs D)))
  = fold_left (fun ks r => add_key r ks) (relatives_in_month m cs)
      (keys (value_or [] (dict_get Z.eqb m D))).
Proof.
  revert D. induction cs as [|c cs IH]; intro D; [reflexivity|].
  unfold citizens_loop in *. simpl. rewrite IH, inner_keys_relatives.
  unfold relatives_in_month. simpl. now rewrite fold_left_app.
Qed.

Lemma filter_not_in_snoc (K : list Z) (x : Z) (L : list Z) :
  filter (fun y => negb (existsb (Z.eqb y) (K ++ [x]))) L
  = filter (fun y => negb (existsb (Z.eqb y) K))
      (filter (fun y => negb (y =? x)) L).
Proof.
  induction L as [|y L IH]; simpl; [reflexivity|].
  rewrite existsb_app. simpl. rewrite orb_false_r, IH.
  destruct (y =? x); simpl.
  - now rewrite orb_true_r.
  - now rewrite orb_false_r.
Qed.

Lemma filter_not_in_member (K : list Z) (x : Z) (L : list Z) :
  existsb (Z.eqb x) K = true ->
  filter (fun y => negb (existsb (Z.eqb y) K))
    (filter (fun y => negb (y =? x)) L)
  = filter (fun y => negb (existsb (Z.eqb y) K)) L.
Proof.
  intro H. induction L as [|y L IH]; simpl; [reflexivity|].
  destruct (Z.eqb_spec y x) as [->|N]; simpl.
  - now rewrite H.
  - now rewrite IH.
Qed.

Lemma fold_add_key (l : list Z) :
  forall K,
    fold_left (fun ks r => add_key r ks) l K
    = K ++ filter (fun y => negb (existsb (Z.eqb y) K)) (first_occurrences l).
Proof.
  induction l as [|x l IH]; intro K; simpl.
  - now rewrite app_nil_r.
  - rewrite IH. unfold add_key. destruct (existsb (Z.eqb x) K) eqn:E; simpl.
    + now rewrite filter_not_in_member.
    + rewrite filter_not_in_snoc, <- app_assoc. reflexivity.
Qed.

(** X3. Under each month the entries come in the order in which the
    relatives are first named, going through the citizens born in that month
    in input order and through each relatives list from its start; every
    relative appears once. *)
Theorem entries_in_order_of_first_mention (cs : list citizen) (m : Z) :
  1 <= m <= 12 ->
  exists l,
    dict_get String.eqb (str m) (data (aggregate cs)) = Some l /\
    map citizen_id l = first_occurrences (relatives_in_month m cs).
Proof.
  intro Hm. unfold aggregate. rewrite (representation_get _ m Hm).
  eexists. split; [reflexivity|].
  rewrite entries_of_ids.
  change (_get_birthdays_data cs) with (citizens_loop cs []).
  rewrite inner_keys_citizens, fold_add_key. simpl.
  induction (first_occurrences (relatives_in_month m cs)) as [|y L IH];
    simpl; congruence.
Qed.

Lemma entries_in_order_of_first_mention_witness :
  exists l,
    dict_get String.eqb (str 12)
      (data (aggregate
               [mk_citizen 1 (mk_datetime 1999 12 31 eq_refl) [6; 5; 6];
                mk_citizen 2 (mk_datetime 2001 2 3 eq_refl) [7];
                mk_citizen 3 (mk_datetime 1980 12 9 eq_refl) [5; 4]])) = Some l /\
    map citizen_id l
    = first_occurrences
        (relatives_in_month 12
           [mk_citizen 1 (mk_datetime 1999 12 31 eq_refl) [6; 5; 6];
            mk_citizen 2 (mk_datetime 2001 2 3 eq_refl) [7];
            mk_citizen 3 (mk_datetime 1980 12 9 eq_refl) [5; 4]]).
Proof. apply entries_in_order_of_first_mention. lia. Defined.

Lemma citizens_loop_without_relatives (cs : list citizen) :
  forall D, citizens_loop (filter has_relatives cs) D = citizens_loop cs D.
Proof.
  induction cs as [|c cs IH]; intro D; [reflexivity|].
  simpl filter. unfold has_relatives at 1.
  destruct (relatives c) as [|r rs] eqn:E.
  - rewrite IH. unfold citizens_loop. simpl. now rewrite E.
  - unfold citizens_loop in *. simpl. now rewrite IH.
Qed.

(** X4. Citizens who list no relatives play no part: leaving them out of the
    input gives the same raw dictionary and the same report. *)
Theorem citizens_without_relatives_ignored (cs : list citizen) :
  _get_birthdays_data (filter has_relatives cs) = _get_birthdays_data cs /\
  aggregate (filter has_relatives cs) = aggregate cs.
Proof.
  assert (E : _get_birthdays_data (filter has_relatives cs)
              = _get_birthdays_data cs)
    by apply (citizens_loop_without_relatives cs []).
  split; [exact E|]. unfold aggregate. now rewrite E.
Qed.

Lemma gifts_app (m r : Z) (cs cs' : list citizen) :
  gifts m r (cs ++ cs') = gifts m r cs + gifts m r cs'.
Proof. induction cs as [|c cs IH]; simpl; lia. Qed.

(** X5. Putting two lists of citizens together adds their counts, month by
    month and relative by relative; and the fold over the joined list is the
    fold over the second list continued from the result of the first. *)
Theorem counts_add_over_append (cs cs' : list citizen) (m r : Z) :
  count_at m r (_get_birthdays_data (cs ++ cs'))
  = count_at m r (_get_birthdays_data cs)
    + count_at m r (_get_birthdays_data cs') /\
  _get_birthdays_data (cs ++ cs')
  = citizens_loop cs' (_get_birthdays_data cs).
Proof.
  split.
  - rewrite !raw_count. apply gifts_app.
  - unfold _get_birthdays_data, citizens_loop. apply fold_left_app.
Qed.

(** * Beyond the claims: the handler *)

Lemma find_app_some {A : Type} (f : A -> bool) (l l' : list A) (x : A) :
  find f l = Some x -> find f (l ++ l') = Some x.
Proof.
  induction l as [|a l IH]; simpl; [discriminate|].
  destruct (f a); auto.
Qed.

Lemma find_app_none {A : Type} (f : A -> bool) (l l' : list A) :
  find f l = None -> find f (l ++ l') = find f l'.
Proof.
  induction l as [|a l IH]; simpl; [reflexivity|].
  destruct (f a); [discriminate|auto].
Qed.

Lemma find_none_ids (import_id : Z) (docs : list birthdays_doc) :
  find (fun doc => b_import_id doc =? import_id) docs = None ->
  ~ In import_id (map b_import_id docs).
Proof.
  intros H I. apply in_map_iff in I as (doc & E & I).
  apply (find_none _ _ H) in I. simpl in I. rewrite E, Z.eqb_refl in I.
  discriminate.
Qed.

Lemma section_ok_cached (import_id : Z) (w w' : world)
  (x : representation) (st : Z) :
  guarded_section import_id w = (Ok (x, st), w') ->
  exists doc, cached import_id w' = Some doc /\ x = mk_repr (b_data doc).
Proof.
  unfold guarded_section, _get_cached_birthdays, get_citizens,
    _cache_birthdays_data, bind, store_access, ret, cached.
  destruct w as [im bi le fa lg].
  destruct fa as [|[|] [|[|] [|[|] fa]]]; simpl; intro H;
    repeat match type of H with
      | context [find ?f ?l] => destruct (find f l) eqn:?; simpl in H
      end;
    first
      [ discriminate H
      | injection H as <- <- <-; simpl;
        first [ eexists; split; [eassumption|reflexivity]
              | eexists; split;
                [apply find_snoc; [assumption|apply Z.eqb_refl]|reflexivity] ] ].
Qed.

(** X6. A call that fails, for whatever reason (a lease not obtained, no
    such import, an operation rejected by the store), leaves
    [db['birthdays']] as it was and performs no insertion. *)
Theorem failed_call_writes_nothing (import_id pid : Z) (w : world) (e : error) :
  fst (get_birthdays import_id pid w) = Err e ->
  birthdays (snd (get_birthdays import_id pid w)) = birthdays w /\
  exists evs,
    log (snd (get_birthdays import_id pid w)) = log w ++ evs /\
    inserts evs = [].
Proof.
  destruct (get_birthdays import_id pid w) as [r w'] eqn:G. simpl. intros ->.
  destruct (call_effect _ _ _ _ _ G) as (evs & L & _ & S).
  destruct S as [[I B]|(doc & idoc & _ & _ & _ & _ & _ & _ & R)];
    [|discriminate].
  split; [exact B|]. now exists evs.
Qed.

Lemma failed_call_writes_nothing_witness :
  birthdays
    (snd (get_birthdays 7 100
            (mk_world [mk_import 7 example_residents] [] []
               [false; false; true] []))) = [] /\
  exists evs,
    log (snd (get_birthdays 7 100
                (mk_world [mk_import 7 example_residents] [] []
                   [false; false; true] []))) = [] ++ evs /\
    inserts evs = [].
Proof.
  apply (failed_call_writes_nothing 7 100
           (mk_world [mk_import 7 example_residents] [] [] [false; false; true] [])
           StoreUnavailable).
  reflexivity.
Defined.

(** X7. After a successful call the report that was returned is the one the
    cache holds for the import: the next lookup finds exactly this content. *)
Theorem returned_report_is_cached (import_id pid : Z) (w : world)
  (x : representation) (st : Z) :
  fst (get_birthdays import_id pid w) = Ok (x, st) ->
  exists doc,
    cached import_id (snd (get_birthdays import_id pid w)) = Some doc /\
    x = mk_repr (b_data doc).
Proof.
  destruct (get_birthdays import_id pid w) as [r w'] eqn:G. simpl. intros ->.
  apply get_birthdays_shape in G as [S _].
  destruct S as [_ R|_ _ R|evs w2 w3 _ _ _ _ G2 _ _ B3 _ _]; try discriminate.
  destruct (section_ok_cached _ _ _ _ _ G2) as (doc & C & ->).
  exists doc. split; [|reflexivity]. unfold cached in *. now rewrite B3.
Qed.

Lemma returned_report_is_cached_witness :
  exists doc,
    cached 7 (snd (get_birthdays 7 100 example_world)) = Some doc /\
    aggregate example_residents = mk_repr (b_data doc).
Proof.
  apply (returned_report_is_cached 7 100 example_world
           (aggregate example_residents) 201).
  reflexivity.
Defined.

Lemma call_keeps_ids_unique (import_id pid : Z) (w : world) :
  NoDup (map b_import_id (birthdays w)) ->
  NoDup (map b_import_id (birthdays (snd (get_birthdays import_id pid w)))).
Proof.
  intro ND. destruct (get_birthdays import_id pid w) as [r w'] eqn:G. simpl.
  destruct (call_effect _ _ _ _ _ G) as (evs & _ & _ & S).
  destruct S as [[_ ->]|(doc & idoc & _ & -> & Id & _ & C & _)]; [exact ND|].
  rewrite map_app. simpl. apply NoDup_rev in ND.
  rewrite <- (rev_involutive (_ ++ _)). apply NoDup_rev.
  rewrite rev_app_distr. simpl. constructor; [|exact ND].
  rewrite <- in_rev, Id. now apply find_none_ids.
Qed.

(** X8. The handler never stores a second report for an import: if the
    import ids in [db['birthdays']] are pairwise distinct, they still are
    after any sequence of calls, with any leases held and any store
    operations rejected. *)
Theorem one_report_per_import (requests : list (Z * Z)) (w : world) :
  NoDup (map b_import_id (birthdays w)) ->
  NoDup (map b_import_id (birthdays (serve requests w))).
Proof.
  revert w. induction requests as [|[id p] rs IH]; intros w ND; [exact ND|].
  simpl. apply IH. now apply call_keeps_ids_unique.
Qed.

Lemma one_report_per_import_witness :
  NoDup (map b_import_id
           (birthdays (serve [(7, 100); (7, 101); (8, 100); (7, 100)]
                         example_world))).
Proof.
  apply (one_report_per_import [(7, 100); (7, 101); (8, 100); (7, 100)]
           example_world).
  constructor.
Defined.

Lemma call_keeps_cached (import_id pid id : Z) (w : world) (doc : birthdays_doc) :
  cached id w = Some doc ->
  cached id (snd (get_birthdays import_id pid w)) = Some doc.
Proof.
  intro C. destruct (get_birthdays import_id pid w) as [r w'] eqn:G. simpl.
  destruct (call_effect _ _ _ _ _ G) as (evs & _ & _ & S). unfold cached in *.
  destruct S as [[_ ->]|(doc' & idoc & _ & -> & _)]; [exact C|].
  now apply find_app_some.
Qed.

(** X9. A cached report is never replaced or removed: what the cache holds
    for an import stays what it is through any sequence of calls, for this
    import or for others. *)
Theorem cached_report_is_final (requests : list (Z * Z)) (w : world)
  (id : Z) (doc : birthdays_doc) :
  cached id w = Some doc ->
  cached id (serve requests w) = Some doc.
Proof.
  revert w. induction requests as [|[i p] rs IH]; intros w C; [exact C|].
  simpl. apply IH. now apply call_keeps_cached.
Qed.

Lemma cached_report_is_final_witness :
  cached 7 (serve [(8, 100); (7, 101); (7, 100)] example_world_cached)
  = Some (mk_birthdays 7 (data (aggregate example_residents))).
Proof.
  apply (cached_report_is_final [(8, 100); (7, 101); (7, 100)]
           example_world_cached 7).
  reflexivity.
Defined.

(** X10. A call for one import does not change what is cached for any other
    import. *)
Theorem other_imports_untouched (import_id pid id : Z) (w : world) :
  id <> import_id ->
  cached id (snd (get_birthdays import_id pid w)) = cached id w.
Proof.
  intro N. destruct (get_birthdays import_id pid w) as [r w'] eqn:G. simpl.
  destruct (call_effect _ _ _ _ _ G) as (evs & _ & _ & S). unfold cached in *.
  destruct S as [[_ ->]|(doc & idoc & _ & -> & Id & _)]; [reflexivity|].
  destruct (find (fun d => b_import_id d =? id) (birthdays w)) as [d|] eqn:F.
  - now apply find_app_some.
  - rewrite (find_app_none _ _ _ F). simpl. rewrite Id.
    apply Z.eqb_neq in N. now rewrite Z.eqb_sym, N.
Qed.

Lemma other_imports_untouched_witness :
  cached 8 (snd (get_birthdays 7 100 example_world)) = cached 8 example_world.
Proof. apply (other_imports_untouched 7 100 8 example_world). lia. Defined.

(** X11. Once a report is cached the handler serves it without looking at
    the import: with the leases free and the store answering, the answer is
    the cached content with status 201 whatever [db['imports']] holds, also
    when the import has been changed or is gone, and the import collection
    is not read. *)
Theorem cached_report_ignores_dataset (import_id pid : Z) (w : world)
  (doc : birthdays_doc) (im : list import_doc) :
  leases_free import_id w -> store_up w -> cached import_id w = Some doc ->
  fst (get_birthdays import_id pid (set_imports im w))
  = Ok (mk_repr (b_data doc), 201) /\
  exists evs,
    log (snd (get_birthdays import_id pid (set_imports im w))) = log w ++ evs /\
    reads evs = [].
Proof.
  intros Fr Up C.
  rewrite (call_hit import_id pid (set_imports im w) doc Fr Up C). simpl.
  split; [reflexivity|]. now exists (hit_events import_id pid).
Qed.

Lemma cached_report_ignores_dataset_witness :
  fst (get_birthdays 7 100 (set_imports [] example_world_cached))
  = Ok (mk_repr (b_data (mk_birthdays 7 (data (aggregate example_residents)))),
        201) /\
  exists evs,
    log (snd (get_birthdays 7 100 (set_imports [] example_world_cached)))
    = log example_world_cached ++ evs /\
    reads evs = [].
Proof.
  apply (cached_report_ignores_dataset 7 100 example_world_cached
           (mk_birthdays 7 (data (aggregate example_residents))) []).
  - split; reflexivity.
  - reflexivity.
  - reflexivity.
Defined.

(** X12. The handler only reads [db['imports']] and gives back every lease
    it takes: after any sequence of calls the import collection and the
    lease table are what they were. *)
Theorem serve_keeps_imports_and_leases (requests : list (Z * Z)) (w : world) :
  imports (serve requests w) = imports w /\
  leases (serve requests w) = leases w.
Proof.
  revert w. induction requests as [|[id p] rs IH]; intro w; [now split|].
  simpl. destruct (IH (snd (get_birthdays id p w))) as [Ii Il].
  rewrite Ii, Il.
  destruct (get_birthdays id p w) as [r w'] eqn:G. simpl.
  apply get_birthdays_shape in G as [S Im]. split; [exact Im|].
  now destruct S.
Qed.

(** * Beyond the claims: the route [citizens] of [service.py] *)

Lemma pad2_fields :
  forallb
    (fun n =>
       match Service.pad2 n with
       | String _ (String _ EmptyString) => Service.parse2 (Service.pad2 n) =? n
       | _ => false
       end)
    (range 0 100) = true.
Proof. vm_compute. reflexivity. Qed.

Lemma pad2_spec (n : Z) :
  0 <= n <= 99 ->
  exists a b,
    Service.pad2 n = String a (String b EmptyString) /\
    Service.parse2 (String a (String b EmptyString)) = n.
Proof.
  intro H. pose proof pad2_fields as F. rewrite forallb_forall in F.
  assert (I : In n (range 0 100)) by (apply in_range; lia).
  apply F in I.
  destruct (Service.pad2 n) as [|a [|b [|c s]]]; try discriminate.
  exists a, b. split; [reflexivity|]. now apply Z.eqb_eq.
Qed.

Lemma year_digits :
  forallb (fun y => Nat.eqb (String.length (str y)) 4) (range 1000 10000) = true.
Proof. vm_compute. reflexivity. Qed.

Lemma year_length (y : Z) :
  1000 <= y <= 9999 -> String.length (str y) = 4%nat.
Proof.
  intro H. pose proof year_digits as F. rewrite forallb_forall in F.
  apply Nat.eqb_eq, F, in_range. lia.
Qed.

(** X13. A birth date is rendered as two digits of the day, a dot, two
    digits of the month, a dot and the year: ten characters for a year of
    four digits, and the two-digit fields read back as the day and the
    month. *)
Theorem birth_date_format (dt : datetime) :
  Service.plain_date dt ->
  exists d1 d0 m1 m0,
    Service.strftime_dmY dt
    = String d1 (String d0 (String "."
        (String m1 (String m0 (String "." (str (year dt))))))) /\
    Service.parse2 (String d1 (String d0 EmptyString)) = day dt /\
    Service.parse2 (String m1 (String m0 EmptyString)) = month dt /\
    String.length (Service.strftime_dmY dt) = 10%nat.
Proof.
  intros [Hd Hy]. pose proof (month_bounds dt) as Hm.
  destruct (pad2_spec (day dt)) as (d1 & d0 & Ed & Pd); [lia|].
  destruct (pad2_spec (month dt)) as (m1 & m0 & Em & Pm); [lia|].
  exists d1, d0, m1, m0. unfold Service.strftime_dmY. rewrite Ed, Em. simpl.
  repeat split; auto. now rewrite (year_length _ Hy).
Qed.

Lemma birth_date_format_witness :
  exists d1 d0 m1 m0,
    Service.strftime_dmY (mk_datetime 2000 3 5 eq_refl)
    = String d1 (String d0 (String "."
        (String m1 (String m0 (String "." (str 2000)))))) /\
    Service.parse2 (String d1 (String d0 EmptyString)) = 5 /\
    Service.parse2 (String m1 (String m0 EmptyString)) = 3 /\
    String.length (Service.strftime_dmY (mk_datetime 2000 3 5 eq_refl)) = 10%nat.
Proof.
  apply (birth_date_format (mk_datetime 2000 3 5 eq_refl)).
  unfold Service.plain_date. simpl. lia.
Defined.

(** X14. Different dates are rendered differently: two dates with the same
    rendering have the same day, month and year. *)
Theorem birth_date_format_injective (a b : datetime) :
  Service.plain_date a -> Service.plain_date b ->
  Service.strftime_dmY a = Service.strftime_dmY b ->
  day a = day b /\ month a = month b /\ year a = year b.
Proof.
  intros [Hda Hya] [Hdb Hyb] E.
  pose proof (month_bounds a) as Hma. pose proof (month_bounds b) as Hmb.
  destruct (pad2_spec (day a)) as (a1 & a0 & Eda & Pda); [lia|].
  destruct (pad2_spec (month a)) as (a3 & a2 & Ema & Pma); [lia|].
  destruct (pad2_spec (day b)) as (b1 & b0 & Edb & Pdb); [lia|].
  destruct (pad2_spec (month b)) as (b3 & b2 & Emb & Pmb); [lia|].
  unfold Service.strftime_dmY in E. rewrite Eda, Ema, Edb, Emb in E.
  simpl in E. injection E as E1 E0 E3 E2 Ey. subst.
  split; [congruence|]. split; [congruence|]. now apply str_inj.
Qed.

Lemma birth_date_format_injective_witness :
  day (mk_datetime 2000 3 5 eq_refl) = day (mk_datetime 2000 3 5 eq_refl) /\
  month (mk_datetime 2000 3 5 eq_refl) = month (mk_datetime 2000 3 5 eq_refl) /\
  year (mk_datetime 2000 3 5 eq_refl) = year (mk_datetime 2000 3 5 eq_refl).
Proof.
  apply (birth_date_format_injective
           (mk_datetime 2000 3 5 eq_refl) (mk_datetime 2000 3 5 eq_refl)).
  - unfold Service.plain_date. simpl. lia.
  - unfold Service.plain_date. simpl. lia.
  - reflexivity.
Defined.

(** X15. What the answer of the route means, whatever the leases and the
    store do.  A returned response has status 201 and lists the citizens of
    the stored import in their stored order, each with its birth date
    rendered; the route raises its own [PyMongoError] only when no import
    has the id; a lock failure only when the lease on [str(import_id)] is
    held; a store failure only when the store rejected the read. *)
Theorem citizens_route_answer (import_id pid : Z) (w : world) :
  match fst (Service.citizens import_id pid w) with
  | Service.Returned (resp, st) =>
      st = 201 /\
      exists doc,
        dataset import_id w = Some doc /\
        Service.r_data resp = map Service.format_citizen (citizens doc)
  | Service.Raised (Service.PyMongoError msg) =>
      dataset import_id w = None /\
      msg = "Import with specified id not found" /\
      held (str import_id) w = false
  | Service.Raised Service.MongoLockLocked => held (str import_id) w = true
  | Service.Raised Service.StoreRejected =>
      exists f, faults w = true :: f
  end.
Proof.
  unfold Service.citizens, Service.with_lock, lock_acquire, Service.find_import,
    store_access, dataset.
  destruct (held (str import_id) w) eqn:H; [reflexivity|].
  destruct w as [im bi le fa lg]. simpl.
  destruct fa as [|[|] fa]; simpl; try (now eexists);
    destruct (find _ im) as [doc|]; simpl; auto;
    (split; [reflexivity|now exists doc]).
Qed.

(** X16. With the lease free and the store answering, the route returns the
    rendered citizens of the import with status 201, or raises
    [PyMongoError] when there is no such import; either way it takes the
    lease on [str(import_id)] with expire 60 and timeout 10, reads the
    import once, gives the lease back, and leaves the collections and the
    lease table as they were. *)
Theorem citizens_route_run (import_id pid : Z) (w : world) :
  held (str import_id) w = false -> store_up w ->
  Service.citizens import_id pid w
  = (match dataset import_id w with
     | Some doc =>
         Service.Returned
           (Service.mk_response (map Service.format_citizen (citizens doc)), 201)
     | None =>
         Service.Raised (Service.PyMongoError "Import with specified id not found")
     end,
     mk_world (imports w) (birthdays w) (leases w) (faults w)
       (log w ++ [Acquire (str import_id) (str pid) 60 10;
                  ReadCitizens import_id;
                  Release (str import_id) (str pid)])).
Proof.
  intros H Up.
  unfold Service.citizens, Service.with_lock, lock_acquire, Service.find_import,
    store_access, dataset.
  rewrite H. unfold held in H. destruct w as [im bi le fa lg].
  unfold store_up in Up. simpl in *. subst fa. simpl.
  destruct (find _ im) as [doc|]; simpl;
    rewrite (release_last _ _ _ H); unfold emit, set_leases; simpl;
    rewrite <- !app_assoc; reflexivity.
Qed.

Lemma citizens_route_run_witness :
  Service.citizens 7 100 example_world
  = (match dataset 7 example_world with
     | Some doc =>
         Service.Returned
           (Service.mk_response (map Service.format_citizen (citizens doc)), 201)
     | None =>
         Service.Raised (Service.PyMongoError "Import with specified id not found")
     end,
     mk_world (imports example_world) (birthdays example_world)
       (leases example_world) (faults example_world)
       (log example_world ++ [Acquire (str 7) (str 100) 60 10;
                              ReadCitizens 7;
                              Release (str 7) (str 100)])).
Proof. apply (citizens_route_run 7 100 example_world); reflexivity. Defined.

(** X17. The route is read-only and leaks no lease, on every path: the
    import and report collections and the lease table are the same after
    the call as before, nothing is inserted, and its lock operations are
    either one failed attempt or one acquisition followed, last of all, by
    the release of the same lease. *)
Theorem citizens_route_read_only (import_id pid : Z) (w : world) :
  imports (snd (Service.citizens import_id pid w)) = imports w /\
  birthdays (snd (Service.citizens import_id pid w)) = birthdays w /\
  leases (snd (Service.citizens import_id pid w)) = leases w /\
  exists evs,
    log (snd (Service.citizens import_id pid w)) = log w ++ evs /\
    inserts evs = [] /\
    (lock_events evs = [AcquireTimeout (str import_id) (str pid) 60 10] \/
     lock_events evs = [Acquire (str import_id) (str pid) 60 10;
                        Release (str import_id) (str pid)]).
Proof.
  unfold Service.citizens, Service.with_lock, lock_acquire, Service.find_import,
    store_access.
  destruct (held (str import_id) w) eqn:H.
  - simpl. repeat split. eexists. split; [reflexivity|]. split; [reflexivity|].
    now left.
  - unfold held in H. destruct w as [im bi le fa lg]. simpl in *.
    destruct fa as [|[|] fa]; simpl;
      try destruct (find _ im) as [doc|]; simpl;
      rewrite (release_last _ _ _ H); unfold emit, set_leases; simpl;
      (repeat split; eexists;
       split; [rewrite <- ?app_assoc; reflexivity|];
       split; [reflexivity|now right]).
Qed.
